(** * ExamRoom: codec, playback scheduler, transcript assembly and session
    lifecycle of the physics viva examiner, embedded from
    [components/ExamRoom.tsx] and [App.tsx]. *)

From Stdlib Require Import ZArith NArith QArith Qround Qabs Qcanon Lia.
From Stdlib Require Import Ascii String List.
From Stdlib.Strings Require Import Byte.
From stdpp Require Import base option list gmap pretty.
Import ListNotations.

Local Open Scope N_scope.

(** ** Platform: [btoa] and [atob]

    The two built-ins the codec calls.  A JavaScript string is modelled by a
    [string]: one 8-bit character per code unit.  [btoa] only accepts such
    strings, and [atob] rejects every code unit outside its alphabet, so no
    accepted input is lost. *)

Definition b64_alphabet : list ascii :=
  list_ascii_of_string
    "ABCDEFGHIJKLMNOPQRSTUVWXYZabcdefghijklmnopqrstuvwxyz0123456789+/".

Definition pad_char : ascii := "="%char.

(** The character of a 6-bit group. *)
Definition b64_char (n : N) : ascii :=
  nth (N.to_nat n) b64_alphabet pad_char.

Fixpoint index_of (c : ascii) (l : list ascii) : option N :=
  match l with
  | [] => None
  | x :: r => if Ascii.eqb c x then Some 0 else N.succ <$> index_of c r
  end.

(** The 6-bit group of a character, [None] outside the alphabet. *)
Definition b64_index (c : ascii) : option N := index_of c b64_alphabet.

(** Base64 of a list of code units: three units give four characters, a
    tail of one or two units is padded with [=]. *)
Fixpoint b64_groups (l : list N) : list ascii :=
  match l with
  | [] => []
  | [a] =>
      let n := a * 65536 in
      [b64_char (n / 262144); b64_char (n / 4096 mod 64); pad_char; pad_char]
  | [a; b] =>
      let n := a * 65536 + b * 256 in
      [b64_char (n / 262144); b64_char (n / 4096 mod 64);
       b64_char (n / 64 mod 64); pad_char]
  | a :: b :: c :: r =>
      let n := a * 65536 + b * 256 + c in
      b64_char (n / 262144) :: b64_char (n / 4096 mod 64) ::
      b64_char (n / 64 mod 64) :: b64_char (n mod 64) :: b64_groups r
  end.

Definition btoa (binary : string) : string :=
  string_of_list_ascii (b64_groups (N_of_ascii <$> list_ascii_of_string binary)).

(** TAB, LF, FF, CR and SPACE. *)
Definition is_ascii_whitespace (c : ascii) : bool :=
  let n := N_of_ascii c in
  (n =? 9) || (n =? 10) || (n =? 12) || (n =? 13) || (n =? 32).

(** Drops one or two trailing [=]. *)
Definition strip_padding (data : list ascii) : list ascii :=
  match rev data with
  | p :: q :: r =>
      if Ascii.eqb p pad_char
      then if Ascii.eqb q pad_char then rev r else rev (q :: r)
      else data
  | [p] => if Ascii.eqb p pad_char then [] else data
  | [] => data
  end.

(** Four 6-bit groups give three bytes; a tail of three groups gives two
    bytes and a tail of two groups one byte, the spare bits dropped. *)
Fixpoint b64_bytes (l : list N) : list N :=
  match l with
  | s0 :: s1 :: s2 :: s3 :: r =>
      let n := ((s0 * 64 + s1) * 64 + s2) * 64 + s3 in
      n / 65536 :: n / 256 mod 256 :: n mod 256 :: b64_bytes r
  | [s0; s1; s2] =>
      let n := ((s0 * 64 + s1) * 64 + s2) / 4 in
      [n / 256; n mod 256]
  | [s0; s1] =>
      let n := (s0 * 64 + s1) / 16 in
      [n]
  | _ => []
  end.

(** Forgiving base64 decoding: whitespace removed, padding dropped when the
    length is a multiple of four, failure on a length of 1 modulo 4 or on a
    character outside the alphabet ([None] is the thrown
    [InvalidCharacterError]). *)
Definition atob (base64 : string) : option string :=
  let data :=
    filter (fun c => is_ascii_whitespace c = false) (list_ascii_of_string base64) in
  let data :=
    if N.of_nat (length data) mod 4 =? 0 then strip_padding data else data in
  if N.of_nat (length data) mod 4 =? 1 then None
  else
    sextets ← mapM b64_index data;
    Some (string_of_list_ascii (ascii_of_N <$> b64_bytes sextets)).

(** ** Codec: [encode] and [decode]  *)

(** [String.fromCharCode(bytes[i])] and [binaryString.charCodeAt(i)]. *)
Definition fromCharCode (b : byte) : ascii := ascii_of_byte b.
Definition charCodeAt (c : ascii) : byte := byte_of_ascii c.

(** [encode(bytes: Uint8Array)]: the loop appends one character per byte,
    then [btoa]. *)
Definition encode (bytes : list byte) : string :=
  let binary :=
    fold_left (fun binary b => binary ++ String (fromCharCode b) EmptyString)%string
      bytes EmptyString in
  btoa binary.

(** [decode(base64: string)]: [atob], then one byte per character. *)
Definition decode (base64 : string) : option (list byte) :=
  binaryString ← atob base64;
  Some (charCodeAt <$> list_ascii_of_string binaryString).

(** ** Exceptions and results *)

Inductive exn :=
  | InvalidCharacterError
  | RangeError
  | NotSupportedError
  | TypeError.

Inductive result (A : Type) :=
  | Ok (a : A)
  | Throw (e : exn).
Arguments Ok {A} a.
Arguments Throw {A} e.

#[global] Instance result_ret : MRet result := fun A a => Ok a.
#[global] Instance result_bind : MBind result := fun A B k r =>
  match r with
  | Ok a => k a
  | Throw e => Throw e
  end.

(** ** Numbers and typed arrays

    A finite JavaScript number is modelled by the rational it denotes.  The
    operations below are exact on the values they meet: a Float32 sample
    times 32768 and a 16-bit integer over 32768 are both representable, so
    no rounding is left out.  [NaN] also stands for the infinities, which
    the integer conversions treat alike. *)

Inductive number :=
  | Num (q : Q)
  | NaN.

Definition number_mul (x : number) (k : Q) : number :=
  match x with
  | Num q => Num (q * k)
  | NaN => NaN
  end.

(** Truncation toward zero. *)
Definition Qtrunc (q : Q) : Z := (Qnum q ÷ Z.pos (Qden q))%Z.

(** The conversion applied by a store into an [Int16Array]: truncate, reduce
    modulo 2^16, and read the result as a signed 16-bit integer. *)
Definition ToInt16 (x : number) : Z :=
  match x with
  | NaN => 0%Z
  | Num q =>
      let int16bit := (Qtrunc q mod 65536)%Z in
      if (32768 <=? int16bit)%Z then (int16bit - 65536)%Z else int16bit
  end.

(** The conversion of an [unsigned long] argument. *)
Definition ToUint32 (x : number) : Z :=
  match x with
  | NaN => 0%Z
  | Num q => (Qtrunc q mod 4294967296)%Z
  end.

Definition byte_of_N (n : N) : byte := default x00 (Byte.of_N (n mod 256)).

(** [new Uint8Array(int16.buffer)]: two bytes per element, low byte first. *)
Definition Uint8Array_of_Int16Array (int16 : list Z) : list byte :=
  v ← int16;
  let u := Z.to_N (v mod 65536)%Z in
  [byte_of_N (u mod 256); byte_of_N (u / 256)].

(** [new Int16Array(data.buffer)]: a [RangeError] unless the byte length is
    even. *)
Fixpoint int16_pairs (data : list byte) : list Z :=
  match data with
  | lo :: hi :: r =>
      let u := (Z.of_N (Byte.to_N lo) + 256 * Z.of_N (Byte.to_N hi))%Z in
      (if (32768 <=? u)%Z then u - 65536 else u)%Z :: int16_pairs r
  | _ => []
  end.

Definition Int16Array_of_buffer (data : list byte) : result (list Z) :=
  if Nat.even (length data) then Ok (int16_pairs data) else Throw RangeError.

(** The PCM conversion of the audio producer:
    [for (i < l) int16[i] = inputData[i] * 32768], then the bytes of the
    array. *)
Definition floatTo16BitPCM (inputData : list number) : list byte :=
  let int16 := (fun x => ToInt16 (number_mul x 32768)) <$> inputData in
  Uint8Array_of_Int16Array int16.

Record AudioBuffer := {
  numberOfChannels : nat;
  frameLength : nat;            (* [length] *)
  sampleRate : positive;
  channels : list (list number) (* [getChannelData(c)] *)
}.

(** [ctx.createBuffer(numberOfChannels, length, sampleRate)]: zero-filled
    channels; [NotSupportedError] when the channel count or the length is
    zero.  The length is an [unsigned long], so a fractional argument is
    truncated.  Implementation limits on the arguments are left out. *)
Definition createBuffer (numChannels : nat) (len : number) (rate : positive)
  : result AudioBuffer :=
  let n := Z.to_nat (ToUint32 len) in
  if (numChannels =? 0)%nat || (n =? 0)%nat then Throw NotSupportedError
  else Ok {| numberOfChannels := numChannels;
             frameLength := n;
             sampleRate := rate;
             channels := replicate numChannels (replicate n (Num 0)) |}.

(** [a / b] on array lengths and counts. *)
Definition nat_div (a b : nat) : number :=
  match b with
  | O => NaN
  | S _ => Num (Z.of_nat a # Pos.of_nat b)
  end.

(** The number of passes of [for (let i = 0; i < bound; i++)]. *)
Definition passes (bound : number) : nat :=
  match bound with
  | Num q => Z.to_nat (Qceiling q)
  | NaN => 0
  end.

(** [dataInt16[k] / 32768.0]; a read past the end is [undefined]. *)
Definition sample_at (dataInt16 : list Z) (k : nat) : number :=
  match dataInt16 !! k with
  | Some v => Num (inject_Z v / 32768)
  | None => NaN
  end.

(** The inner loop of [decodeAudioData] for one channel.  A store past the
    end of the channel is dropped, as [<[i:=v]>] does. *)
Definition fill_channel (dataInt16 : list Z) (numChannels channel : nat)
    (frameCount : number) (channelData : list number) : list number :=
  fold_left
    (fun channelData i =>
       <[i := sample_at dataInt16 (i * numChannels + channel)]> channelData)
    (seq 0 (passes frameCount)) channelData.

(** [decodeAudioData(data, ctx, sampleRate, numChannels)].  With zero
    channels the division is not finite and [createBuffer] throws. *)
Definition decodeAudioData (data : list byte) (rate : positive)
    (numChannels : nat) : result AudioBuffer :=
  dataInt16 ← Int16Array_of_buffer data;
  let frameCount := nat_div (length dataInt16) numChannels in
  buffer ← createBuffer numChannels frameCount rate;
  Ok {| numberOfChannels := numberOfChannels buffer;
        frameLength := frameLength buffer;
        sampleRate := sampleRate buffer;
        channels :=
          imap (fun channel channelData =>
                  fill_channel dataInt16 numChannels channel frameCount channelData)
               (channels buffer) |}.

(** ** The output clock

    [ctx.currentTime], [nextStartTimeRef.current] and [audioBuffer.duration]
    are positions and lengths on one time line.  The scheduler only adds
    and compares them, so the time line is kept abstract: any type with an
    addition and an antisymmetric comparison, and the duration of a number
    of frames at a sample rate. *)

Class Timeline (T : Type) := {
  t_zero : T;
  t_add : T -> T -> T;
  t_leb : T -> T -> bool;
  t_frames : nat -> positive -> T;
  t_leb_antisym : forall a b, t_leb a b = true -> t_leb b a = true -> a = b
}.

(** [Math.max(a, b)]. *)
Definition Math_max {T} `{Timeline T} (a b : T) : T :=
  if t_leb a b then b else a.

(** [audioBuffer.duration]. *)
Definition duration {T} `{Timeline T} (buffer : AudioBuffer) : T :=
  t_frames (frameLength buffer) (sampleRate buffer).

(** Exact seconds, as canonical rationals. *)
#[global] Program Instance Qc_timeline : Timeline Qc := {|
  t_zero := 0%Qc;
  t_add := Qcplus;
  t_leb := fun a b => bool_decide (a ≤ b)%Qc;
  t_frames := fun n rate => Q2Qc (Z.of_nat n # rate)
|}.
Next Obligation.
  intros a b Hab Hba. apply bool_decide_eq_true in Hab, Hba.
  now apply Qcle_antisym.
Qed.

(** ** [types.ts] *)

Inductive Role := user | examiner.

Record TranscriptionEntry := {
  role : Role;
  text : string;
  timestamp : Z;
  avatar : option string;
  senderName : option string
}.

Inductive ExamStatus := IDLE | CONNECTING | ACTIVE | FINISHED | ERROR.

Record Persona := {
  id : string;
  label : string;
  description : string;
  icon : string;
  instruction : string;
  voiceName : string
}.

Definition Charon : Persona :=
  {| id := "Charon";
     label := "Prof. Sterling";
     description := "The Academic: Strict, formal, and demands mathematical rigor. Speaks fluent Hinglish.";
     icon := "👨‍💼";
     voiceName := "Charon";
     instruction := "You are Prof. Sterling. You are very strict and only accept precise, textbook definitions. You often interrupt students if they are vague. You use Hindi for transitions but expect technical terms in pure English. You are cold and professional." |}.

Definition PERSONAS : list Persona := [
  Charon;
  {| id := "Puck";
     label := "Dr. Ray";
     description := "The Innovator: Energetic and focuses on tech applications. Interactive in Hindi/English.";
     icon := "👦";
     voiceName := "Puck";
     instruction := "You are Dr. Ray, a young, excited researcher. You care about how physics changes the world. You ask questions about real-life tech like EVs or Space Travel. You are friendly and use lots of Hinglish." |};
  {| id := "Kore";
     label := "Dr. Elena";
     description := "The Analyst: Calm, precise, and laboratory-focused. Precise bilingual examiner.";
     icon := "👩‍🏫";
     voiceName := "Kore";
     instruction := "You are Dr. Elena. You focus exclusively on experiments. You ask about instruments like Screw Gauges, Vernier Calipers, and Multimeters. You want to know about least counts and zero errors. You are calm and methodical." |};
  {| id := "Fenrir";
     label := "Prof. Magnus";
     description := "The Veteran: Stern, brief, and values direct answers. Direct Hinglish commands.";
     icon := "👴";
     voiceName := "Fenrir";
     instruction := "You are Prof. Magnus. You have 40 years of experience and are very tired. You want short, one-word or one-sentence answers. If a student rambles, you tell them to get to the point. You are very grumpy." |};
  {| id := "Zephyr";
     label := "Mr. Aris";
     description := "The Mentor: Friendly, warm, and encourages best efforts in your native style.";
     icon := "👤";
     voiceName := "Zephyr";
     instruction := "You are Mr. Aris. You are like a supportive teacher. You guide the student if they get stuck. You use simple Hindi to explain the question if the student is nervous. You are very kind." |}
].

(** [PERSONAS.find(p => p.id === selectedPersonaId) || PERSONAS[0]]. *)
Definition selectedPersona (selectedPersonaId : string) : Persona :=
  match find (fun p => String.eqb (id p) selectedPersonaId) PERSONAS with
  | Some p => p
  | None => Charon
  end.

(** ** Inbound messages ([LiveServerMessage]) *)

Module Msg.
Record Blob := { data : option string }.
Record Part := { inlineData : option Blob }.
Record Content := { parts : option (list Part) }.
Record Transcription := { text : option string }.
Record LiveServerContent := {
  modelTurn : option Content;
  outputTranscription : option Transcription;
  inputTranscription : option Transcription;
  turnComplete : bool;
  interrupted : bool
}.
Record LiveServerMessage := { serverContent : option LiveServerContent }.
End Msg.

(** [message.serverContent?.modelTurn?.parts[0]?.inlineData?.data]: the
    index into [parts] is not guarded, so a model turn without [parts]
    throws. *)
Definition base64Audio_of (message : Msg.LiveServerMessage) : result (option string) :=
  match Msg.serverContent message with
  | None => Ok None
  | Some sc =>
      match Msg.modelTurn sc with
      | None => Ok None
      | Some turn =>
          match Msg.parts turn with
          | None => Throw TypeError
          | Some ps => Ok (p ← head ps; b ← Msg.inlineData p; Msg.data b)
          end
      end
  end.

(** Truthiness of an optional string. *)
Definition truthy (s : option string) : bool :=
  match s with
  | Some (String _ _) => true
  | _ => false
  end.

(** [acc += text]: an absent [text] is appended as the word [undefined]. *)
Definition js_append (acc : string) (t : option string) : string :=
  (acc ++ default "undefined" t)%string.

(** ** State of the component *)

Definition SourceNode := nat.
Definition Session := nat.

Record Media := { data : option string; mimeType : string }.

Inductive TimerCallback :=
  | CbStartSession                 (* [setTimeout(startSession, 1500)] *)
  | CbAnalyzingOff                 (* [setTimeout(() => setIsAnalyzing(false), 200)] *)
  | CbFrame (sessionPromise : Session). (* the [setInterval] of [onopen] *)

Record Timer := {
  timerId : nat;
  due : N;                          (* in milliseconds *)
  callback : TimerCallback;
  every : option N
}.

Record Transcript := {
  transcriptions : list TranscriptionEntry;
  currentInputText : string;
  currentOutputText : string;
  currentInputTextRef : string;
  currentOutputTextRef : string
}.

Record Playback (T : Type) := {
  isExaminerSpeaking : bool;
  nextStartTimeRef : T;
  sourcesRef : gset SourceNode;
  created : nat;                          (* [createBufferSource] calls *)
  started : list (SourceNode * T * AudioBuffer); (* [source.start(when)] calls *)
  stopped : gset SourceNode               (* [source.stop()] calls *)
}.
Arguments isExaminerSpeaking {T} _.
Arguments nextStartTimeRef {T} _.
Arguments sourcesRef {T} _.
Arguments created {T} _.
Arguments started {T} _.
Arguments stopped {T} _.

Record Controller := {
  isActive : bool;
  isAnalyzing : bool;
  errorMessage : option string;
  sessionRef : option Session;
  streamRef : option nat;
  frameIntervalRef : option nat;
  isClosingRef : bool;
  (* the world around the component *)
  clock : N;                               (* milliseconds *)
  timers : list Timer;
  timersMade : nat;
  pending : list (Session * Media);        (* [sessionPromise.then] callbacks not yet run *)
  outbox : list (Session * Media);         (* [sendRealtimeInput] calls *)
  connects : list string;                  (* [ai.live.connect] calls, by voice *)
  closed : list Session;                   (* [session.close()] calls *)
  tracksStopped : list nat;                (* streams whose tracks were stopped *)
  statusLog : list ExamStatus              (* [onStatusChange] calls *)
}.

Record Room (T : Type) := {
  transcript : Transcript;
  playback : Playback T;
  controller : Controller
}.
Arguments transcript {T} _.
Arguments playback {T} _.
Arguments controller {T} _.

(** Field updates of [Controller]. *)

Definition set_isActive v (c : Controller) : Controller :=
  {| isActive := v; isAnalyzing := isAnalyzing c;
     errorMessage := errorMessage c; sessionRef := sessionRef c;
     streamRef := streamRef c; frameIntervalRef := frameIntervalRef c;
     isClosingRef := isClosingRef c; clock := clock c; timers := timers c;
     timersMade := timersMade c; pending := pending c; outbox := outbox c;
     connects := connects c; closed := closed c;
     tracksStopped := tracksStopped c; statusLog := statusLog c |}.

Definition set_isAnalyzing v (c : Controller) : Controller :=
  {| isActive := isActive c; isAnalyzing := v;
     errorMessage := errorMessage c; sessionRef := sessionRef c;
     streamRef := streamRef c; frameIntervalRef := frameIntervalRef c;
     isClosingRef := isClosingRef c; clock := clock c; timers := timers c;
     timersMade := timersMade c; pending := pending c; outbox := outbox c;
     connects := connects c; closed := closed c;
     tracksStopped := tracksStopped c; statusLog := statusLog c |}.

Definition set_errorMessage v (c : Controller) : Controller :=
  {| isActive := isActive c; isAnalyzing := isAnalyzing c; errorMessage := v;
     sessionRef := sessionRef c; streamRef := streamRef c;
     frameIntervalRef := frameIntervalRef c; isClosingRef := isClosingRef c;
     clock := clock c; timers := timers c; timersMade := timersMade c;
     pending := pending c; outbox := outbox c; connects := connects c;
     closed := closed c; tracksStopped := tracksStopped c;
     statusLog := statusLog c |}.

Definition set_sessionRef v (c : Controller) : Controller :=
  {| isActive := isActive c; isAnalyzing := isAnalyzing c;
     errorMessage := errorMessage c; sessionRef := v;
     streamRef := streamRef c; frameIntervalRef := frameIntervalRef c;
     isClosingRef := isClosingRef c; clock := clock c; timers := timers c;
     timersMade := timersMade c; pending := pending c; outbox := outbox c;
     connects := connects c; closed := closed c;
     tracksStopped := tracksStopped c; statusLog := statusLog c |}.

Definition set_streamRef v (c : Controller) : Controller :=
  {| isActive := isActive c; isAnalyzing := isAnalyzing c;
     errorMessage := errorMessage c; sessionRef := sessionRef c;
     streamRef := v; frameIntervalRef := frameIntervalRef c;
     isClosingRef := isClosingRef c; clock := clock c; timers := timers c;
     timersMade := timersMade c; pending := pending c; outbox := outbox c;
     connects := connects c; closed := closed c;
     tracksStopped := tracksStopped c; statusLog := statusLog c |}.

Definition set_frameIntervalRef v (c : Controller) : Controller :=
  {| isActive := isActive c; isAnalyzing := isAnalyzing c;
     errorMessage := errorMessage c; sessionRef := sessionRef c;
     streamRef := streamRef c; frameIntervalRef := v;
     isClosingRef := isClosingRef c; clock := clock c; timers := timers c;
     timersMade := timersMade c; pending := pending c; outbox := outbox c;
     connects := connects c; closed := closed c;
     tracksStopped := tracksStopped c; statusLog := statusLog c |}.

Definition set_isClosingRef v (c : Controller) : Controller :=
  {| isActive := isActive c; isAnalyzing := isAnalyzing c;
     errorMessage := errorMessage c; sessionRef := sessionRef c;
     streamRef := streamRef c; frameIntervalRef := frameIntervalRef c;
     isClosingRef := v; clock := clock c; timers := timers c;
     timersMade := timersMade c; pending := pending c; outbox := outbox c;
     connects := connects c; closed := closed c;
     tracksStopped := tracksStopped c; statusLog := statusLog c |}.

Definition set_clock v (c : Controller) : Controller :=
  {| isActive := isActive c; isAnalyzing := isAnalyzing c;
     errorMessage := errorMessage c; sessionRef := sessionRef c;
     streamRef := streamRef c; frameIntervalRef := frameIntervalRef c;
     isClosingRef := isClosingRef c; clock := v; timers := timers c;
     timersMade := timersMade c; pending := pending c; outbox := outbox c;
     connects := connects c; closed := closed c;
     tracksStopped := tracksStopped c; statusLog := statusLog c |}.

Definition set_timers v (c : Controller) : Controller :=
  {| isActive := isActive c; isAnalyzing := isAnalyzing c;
     errorMessage := errorMessage c; sessionRef := sessionRef c;
     streamRef := streamRef c; frameIntervalRef := frameIntervalRef c;
     isClosingRef := isClosingRef c; clock := clock c; timers := v;
     timersMade := timersMade c; pending := pending c; outbox := outbox c;
     connects := connects c; closed := closed c;
     tracksStopped := tracksStopped c; statusLog := statusLog c |}.

Definition set_timersMade v (c : Controller) : Controller :=
  {| isActive := isActive c; isAnalyzing := isAnalyzing c;
     errorMessage := errorMessage c; sessionRef := sessionRef c;
     streamRef := streamRef c; frameIntervalRef := frameIntervalRef c;
     isClosingRef := isClosingRef c; clock := clock c; timers := timers c;
     timersMade := v; pending := pending c; outbox := outbox c;
     connects := connects c; closed := closed c;
     tracksStopped := tracksStopped c; statusLog := statusLog c |}.

Definition set_pending v (c : Controller) : Controller :=
  {| isActive := isActive c; isAnalyzing := isAnalyzing c;
     errorMessage := errorMessage c; sessionRef := sessionRef c;
     streamRef := streamRef c; frameIntervalRef := frameIntervalRef c;
     isClosingRef := isClosingRef c; clock := clock c; timers := timers c;
     timersMade := timersMade c; pending := v; outbox := outbox c;
     connects := connects c; closed := closed c;
     tracksStopped := tracksStopped c; statusLog := statusLog c |}.

Definition set_outbox v (c : Controller) : Controller :=
  {| isActive := isActive c; isAnalyzing := isAnalyzing c;
     errorMessage := errorMessage c; sessionRef := sessionRef c;
     streamRef := streamRef c; frameIntervalRef := frameIntervalRef c;
     isClosingRef := isClosingRef c; clock := clock c; timers := timers c;
     timersMade := timersMade c; pending := pending c; outbox := v;
     connects := connects c; closed := closed c;
     tracksStopped := tracksStopped c; statusLog := statusLog c |}.

Definition set_connects v (c : Controller) : Controller :=
  {| isActive := isActive c; isAnalyzing := isAnalyzing c;
     errorMessage := errorMessage c; sessionRef := sessionRef c;
     streamRef := streamRef c; frameIntervalRef := frameIntervalRef c;
     isClosingRef := isClosingRef c; clock := clock c; timers := timers c;
     timersMade := timersMade c; pending := pending c; outbox := outbox c;
     connects := v; closed := closed c; tracksStopped := tracksStopped c;
     statusLog := statusLog c |}.

Definition set_closed v (c : Controller) : Controller :=
  {| isActive := isActive c; isAnalyzing := isAnalyzing c;
     errorMessage := errorMessage c; sessionRef := sessionRef c;
     streamRef := streamRef c; frameIntervalRef := frameIntervalRef c;
     isClosingRef := isClosingRef c; clock := clock c; timers := timers c;
     timersMade := timersMade c; pending := pending c; outbox := outbox c;
     connects := connects c; closed := v; tracksStopped := tracksStopped c;
     statusLog := statusLog c |}.

Definition set_tracksStopped v (c : Controller) : Controller :=
  {| isActive := isActive c; isAnalyzing := isAnalyzing c;
     errorMessage := errorMessage c; sessionRef := sessionRef c;
     streamRef := streamRef c; frameIntervalRef := frameIntervalRef c;
     isClosingRef := isClosingRef c; clock := clock c; timers := timers c;
     timersMade := timersMade c; pending := pending c; outbox := outbox c;
     connects := connects c; closed := closed c; tracksStopped := v;
     statusLog := statusLog c |}.

Definition set_statusLog v (c : Controller) : Controller :=
  {| isActive := isActive c; isAnalyzing := isAnalyzing c;
     errorMessage := errorMessage c; sessionRef := sessionRef c;
     streamRef := streamRef c; frameIntervalRef := frameIntervalRef c;
     isClosingRef := isClosingRef c; clock := clock c; timers := timers c;
     timersMade := timersMade c; pending := pending c; outbox := outbox c;
     connects := connects c; closed := closed c;
     tracksStopped := tracksStopped c; statusLog := v |}.

(** What a handler reads from outside the component. *)
Record Env (T : Type) := {
  currentTime : T;                 (* [outputAudioContextRef.current.currentTime] *)
  dateNow : nat -> Z;              (* the successive values of [Date.now()] *)
  persona : Persona;               (* the [selectedPersona] of the closure *)
  getUserMedia : option nat;       (* the stream, [None] when the request is refused *)
  connectResult : option Session;  (* what [sessionPromise] settles to, [None] on rejection *)
  videoRef : bool;                 (* [videoRef.current] is set *)
  canvasRef : bool;                (* [canvasRef.current] is set *)
  context2d : bool;                (* [canvas.getContext('2d')] is not null *)
  dataUrl : string                 (* [canvas.toDataURL('image/jpeg', 0.4)] *)
}.
Arguments currentTime {T} _.
Arguments dateNow {T} _.
Arguments persona {T} _.
Arguments getUserMedia {T} _.
Arguments connectResult {T} _.
Arguments videoRef {T} _.
Arguments canvasRef {T} _.
Arguments context2d {T} _.
Arguments dataUrl {T} _.

(** The end of an [async] handler: it ran to its end, or it threw and left
    the state as it was at the throw. *)
Inductive Outcome (A : Type) :=
  | Done (a : A)
  | Rejected (e : exn) (a : A).
Arguments Done {A} a.
Arguments Rejected {A} e a.

Definition final {A} (o : Outcome A) : A :=
  match o with
  | Done a => a
  | Rejected _ a => a
  end.

(** [dataUrl.split(',')[1]]. *)
Fixpoint upto_comma (s : string) : string :=
  match s with
  | EmptyString => EmptyString
  | String c r => if Ascii.eqb c ","%char then EmptyString else String c (upto_comma r)
  end.

Fixpoint split_comma_1 (s : string) : option string :=
  match s with
  | EmptyString => None
  | String c r => if Ascii.eqb c ","%char then Some (upto_comma r) else split_comma_1 r
  end.

Local Open Scope string_scope.
Local Open Scope list_scope.

Section Handlers.
Context {T : Type} `{Timeline T}.

Definition set_transcript (t : Transcript) (r : Room T) : Room T :=
  {| transcript := t; playback := playback r; controller := controller r |}.
Definition set_playback (p : Playback T) (r : Room T) : Room T :=
  {| transcript := transcript r; playback := p; controller := controller r |}.
Definition set_controller (c : Controller) (r : Room T) : Room T :=
  {| transcript := transcript r; playback := playback r; controller := c |}.

(** *** [onmessage] *)

(** Lines 260-262: [setIsExaminerSpeaking(true)] and
    [nextStartTimeRef.current = Math.max(nextStartTimeRef.current, ctx.currentTime)]. *)
Definition align (now : T) (p : Playback T) : Playback T :=
  {| isExaminerSpeaking := true;
     nextStartTimeRef := Math_max (nextStartTimeRef p) now;
     sourcesRef := sourcesRef p;
     created := created p;
     started := started p;
     stopped := stopped p |}.

(** Lines 264-273: a new source node is started at [nextStartTimeRef],
    which then moves on by the duration of the buffer; the node joins
    [sourcesRef]. *)
Definition schedule (audioBuffer : AudioBuffer) (p : Playback T) : Playback T :=
  let source := created p in
  {| isExaminerSpeaking := isExaminerSpeaking p;
     nextStartTimeRef := t_add (nextStartTimeRef p) (duration audioBuffer);
     sourcesRef := sourcesRef p ∪ {[source]};
     created := S source;
     started := started p ++ [(source, nextStartTimeRef p, audioBuffer)];
     stopped := stopped p |}.

(** The [ended] listener of a source node. *)
Definition ended (source : SourceNode) (p : Playback T) : Playback T :=
  let sources := sourcesRef p ∖ {[source]} in
  {| isExaminerSpeaking :=
       if bool_decide (size sources = 0%nat) then false else isExaminerSpeaking p;
     nextStartTimeRef := nextStartTimeRef p;
     sourcesRef := sources;
     created := created p;
     started := started p;
     stopped := stopped p |}.

(** [decodeAudioData(decode(base64Audio), ctx, 24000, 1)]. *)
Definition decoded (base64Audio : string) : result AudioBuffer :=
  match decode base64Audio with
  | None => Throw InvalidCharacterError
  | Some bytes => decodeAudioData bytes 24000 1
  end.

(** Lines 258-274, the audio payload. *)
Definition audioPayload (env : Env T) (base64Audio : option string)
    (p : Playback T) : Outcome (Playback T) :=
  match base64Audio with
  | Some (String c rest) =>
      let p := align (currentTime env) p in
      match decoded (String c rest) with
      | Throw e => Rejected e p
      | Ok audioBuffer => Done (schedule audioBuffer p)
      end
  | _ => Done p
  end.

(** Lines 276-284, the transcript fragments: the input fragment is only
    looked at when the message has no output fragment. *)
Definition transcription (message : Msg.LiveServerMessage) (t : Transcript) : Transcript :=
  match sc ← Msg.serverContent message; Msg.outputTranscription sc with
  | Some fragment =>
      {| transcriptions := transcriptions t;
         currentInputText := currentInputText t;
         currentOutputText := js_append (currentOutputText t) (Msg.text fragment);
         currentInputTextRef := currentInputTextRef t;
         currentOutputTextRef := js_append (currentOutputTextRef t) (Msg.text fragment) |}
  | None =>
      match sc ← Msg.serverContent message; Msg.inputTranscription sc with
      | Some fragment =>
          {| transcriptions := transcriptions t;
             currentInputText := js_append (currentInputText t) (Msg.text fragment);
             currentOutputText := currentOutputText t;
             currentInputTextRef := js_append (currentInputTextRef t) (Msg.text fragment);
             currentOutputTextRef := currentOutputTextRef t |}
      | None => t
      end
  end.

Definition candidateEntry (env : Env T) (finalInput : string) : TranscriptionEntry :=
  {| role := user; text := finalInput; timestamp := dateNow env 0;
     avatar := Some "👤"; senderName := Some "Candidate" |}.

Definition examinerEntry (env : Env T) (call : nat) (finalOutput : string)
  : TranscriptionEntry :=
  {| role := examiner; text := finalOutput; timestamp := dateNow env call;
     avatar := Some (icon (persona env)); senderName := Some (label (persona env)) |}.

(** Lines 286-317, the end of a turn. *)
Definition turnComplete (env : Env T) (t : Transcript) : Transcript :=
  let finalInput := currentInputTextRef t in
  let finalOutput := currentOutputTextRef t in
  let next := transcriptions t in
  let next :=
    if truthy (Some finalInput) then next ++ [candidateEntry env finalInput] else next in
  let next :=
    if truthy (Some finalOutput)
    then next ++ [examinerEntry env (if truthy (Some finalInput) then 1 else 0) finalOutput]
    else next in
  {| transcriptions := next;
     currentInputText := "";
     currentOutputText := "";
     currentInputTextRef := "";
     currentOutputTextRef := "" |}.

(** Lines 319-326, the interruption. *)
Definition interrupt (p : Playback T) : Playback T :=
  {| isExaminerSpeaking := false;
     nextStartTimeRef := t_zero;
     sourcesRef := ∅;
     created := created p;
     started := started p;
     stopped := stopped p ∪ sourcesRef p |}.

Definition flag (f : Msg.LiveServerContent -> bool) (message : Msg.LiveServerMessage) : bool :=
  match Msg.serverContent message with
  | Some sc => f sc
  | None => false
  end.

(** The handler, lines 257-327, as one step from its call to its end or to
    its throw: the calls do not overlap (a call is suspended once, at
    [await decodeAudioData], when the message has a payload). *)
Definition onmessage (env : Env T) (message : Msg.LiveServerMessage) (r : Room T)
  : Outcome (Room T) :=
  match base64Audio_of message with
  | Throw e => Rejected e r
  | Ok base64Audio =>
      match audioPayload env base64Audio (playback r) with
      | Rejected e p => Rejected e (set_playback p r)
      | Done p =>
          let r := set_playback p r in
          let r := set_transcript (transcription message (transcript r)) r in
          let r :=
            if flag Msg.turnComplete message
            then set_transcript (turnComplete env (transcript r)) r else r in
          let r :=
            if flag Msg.interrupted message
            then set_playback (interrupt (playback r)) r else r in
          Done r
      end
  end.
End Handlers.

(** ** Timers *)

(** [window.setTimeout(cb, delay)] and [window.setInterval(cb, delay)]; the
    identifiers start at 1. *)
Definition addTimer (cb : TimerCallback) (delay : N) (period : option N)
    (c : Controller) : Controller :=
  let t := {| timerId := S (timersMade c); due := clock c + delay;
              callback := cb; every := period |} in
  set_timersMade (S (timersMade c)) (set_timers (timers c ++ [t]) c).

Definition setTimeout (cb : TimerCallback) (delay : N) (c : Controller) : Controller :=
  addTimer cb delay None c.

(** [clearInterval(id)]. *)
Definition clearInterval (i : nat) (c : Controller) : Controller :=
  set_timers (filter (fun t => timerId t ≠ i) (timers c)) c.

(** ** The capture producers *)

(** [scriptProcessor.onaudioprocess], lines 219-229, in the closure of the
    [startSession] call whose [sessionPromise] settles to [s].  The callback
    given to [sessionPromise.then] is queued in [pending]. *)
Definition onaudioprocess (s : Session) (inputData : list number) (c : Controller)
  : Controller :=
  if isClosingRef c || negb (bool_decide (is_Some (sessionRef c))) then c
  else
    let pcmBlob := {| data := Some (encode (floatTo16BitPCM inputData));
                      mimeType := "audio/pcm;rate=16000" |} in
    set_pending (pending c ++ [(s, pcmBlob)]) c.

(** The callback of the frame interval, lines 233-255. *)
Definition frameTick {T} (env : Env T) (s : Session) (c : Controller) : Controller :=
  if videoRef env && canvasRef env && negb (isClosingRef c)
     && bool_decide (is_Some (sessionRef c))
  then
    if context2d env then
      let base64Data := split_comma_1 (dataUrl env) in
      let c := set_isAnalyzing true c in
      let c := setTimeout CbAnalyzingOff 200 c in
      set_pending (pending c ++ [(s, {| data := base64Data; mimeType := "image/jpeg" |})]) c
    else c
  else c.

(** The oldest queued callback
    [s => { if (s && !isClosingRef.current) s.sendRealtimeInput({ media }) }]
    runs. *)
Definition sendPending (c : Controller) : Controller :=
  match pending c with
  | [] => c
  | (s, media) :: rest =>
      let c := set_pending rest c in
      if negb (isClosingRef c) then set_outbox (outbox c ++ [(s, media)]) c else c
  end.

(** ** The session life cycle *)

Section Lifecycle.
Context {T : Type} `{Timeline T}.

(** [stopActiveSession], lines 159-173. *)
Definition stopActiveSession (r : Room T) : Room T :=
  let c := controller r in
  let c :=
    match sessionRef c with
    | Some s => set_sessionRef None (set_closed (closed c ++ [s]) c)
    | None => c
    end in
  let c :=
    match frameIntervalRef c with
    | Some i => set_frameIntervalRef None (clearInterval i c)
    | None => c
    end in
  let p := playback r in
  let p :=
    {| isExaminerSpeaking := false;
       nextStartTimeRef := nextStartTimeRef p;
       sourcesRef := ∅;
       created := created p;
       started := started p;
       stopped := stopped p ∪ sourcesRef p |} in
  set_playback p (set_controller c r).

(** The [catch] of [startSession]. *)
Definition connectionCatch (c : Controller) : Controller :=
  set_statusLog (statusLog c ++ [ERROR])
    (set_errorMessage (Some "Microphone/Camera access error.") c).

(** [startSession], lines 175-363, taken as one step: the awaited device
    request and connection settle as [env] says. *)
Definition startSession (env : Env T) (r : Room T) : Room T :=
  let r := set_controller (set_errorMessage None (controller r)) r in
  let r := stopActiveSession r in
  let c := controller r in
  let acquired :=
    match streamRef c with
    | Some stream => Some c
    | None =>
        match getUserMedia env with
        | Some stream => Some (set_streamRef (Some stream) c)
        | None => None
        end
    end in
  match acquired with
  | None => set_controller (connectionCatch c) r
  | Some c =>
      let c := set_connects (connects c ++ [voiceName (persona env)]) c in
      match connectResult env with
      | Some s => set_controller (set_sessionRef (Some s) c) r
      | None => set_controller (connectionCatch c) r
      end
  end.

(** [onopen], lines 213-256, for the session [s] of this connection. *)
Definition onopen (s : Session) (c : Controller) : Controller :=
  let c := set_statusLog (statusLog c ++ [ACTIVE]) c in
  let c := set_isActive true c in
  let c := addTimer (CbFrame s) 3000 (Some 3000) c in
  set_frameIntervalRef (Some (timersMade c)) c.

(** [onerror], lines 328-332. *)
Definition onerror (c : Controller) : Controller :=
  let c := set_errorMessage (Some "System error. Restarting...") c in
  setTimeout CbStartSession 1500 c.

(** [onclose], lines 333-335. *)
Definition onclose (c : Controller) : Controller := set_isActive false c.

(** The effect of lines 365-376: its body and its teardown. *)
Definition mount (env : Env T) (r : Room T) : Room T :=
  startSession env (set_controller (set_isClosingRef false (controller r)) r).

Definition teardown (r : Room T) : Room T :=
  let r := set_controller (set_isClosingRef true (controller r)) r in
  let r := stopActiveSession r in
  let c := controller r in
  match streamRef c with
  | Some stream =>
      set_controller
        (set_streamRef None (set_tracksStopped (tracksStopped c ++ [stream]) c)) r
  | None => r
  end.

(** Time passes. *)
Definition elapse (ms : N) (c : Controller) : Controller :=
  set_clock (clock c + ms) c.

(** The timer [i] fires if it is still set and due: a timeout is
    consumed, an interval is set again one period later. *)
Definition fire (env : Env T) (i : nat) (r : Room T) : Room T :=
  let c := controller r in
  match find (fun t => bool_decide (timerId t = i)) (timers c) with
  | None => r
  | Some t =>
      if (due t <=? clock c)%N then
        let others := filter (fun t => timerId t ≠ i) (timers c) in
        let again :=
          match every t with
          | Some period =>
              [{| timerId := i; due := due t + period;
                  callback := callback t; every := every t |}]
          | None => []
          end in
        let r := set_controller (set_timers (others ++ again) c) r in
        match callback t with
        | CbStartSession => startSession env r
        | CbAnalyzingOff => set_controller (set_isAnalyzing false (controller r)) r
        | CbFrame s => set_controller (frameTick env s (controller r)) r
        end
      else r
  end.

(** *** Events *)

Inductive Event :=
  | Message (message : Msg.LiveServerMessage)
  | Ended (source : SourceNode)
  | AudioProcess (s : Session) (inputData : list number)
  | SendPending
  | Open (s : Session)
  | Error
  | Close
  | Mount
  | Teardown
  | Elapse (ms : N)
  | Fire (i : nat).

Definition step (env : Env T) (ev : Event) (r : Room T) : Room T :=
  match ev with
  | Message message => final (onmessage env message r)
  | Ended source => set_playback (ended source (playback r)) r
  | AudioProcess s inputData =>
      set_controller (onaudioprocess s inputData (controller r)) r
  | SendPending => set_controller (sendPending (controller r)) r
  | Open s => set_controller (onopen s (controller r)) r
  | Error => set_controller (onerror (controller r)) r
  | Close => set_controller (onclose (controller r)) r
  | Mount => mount env r
  | Teardown => teardown r
  | Elapse ms => set_controller (elapse ms (controller r)) r
  | Fire i => fire env i r
  end.

Fixpoint run (trace : list (Env T * Event)) (r : Room T) : Room T :=
  match trace with
  | [] => r
  | (env, ev) :: rest => run rest (step env ev r)
  end.

(** The component as first rendered. *)
Definition initial : Room T :=
  {| transcript :=
       {| transcriptions := []; currentInputText := ""; currentOutputText := "";
          currentInputTextRef := ""; currentOutputTextRef := "" |};
     playback :=
       {| isExaminerSpeaking := false; nextStartTimeRef := t_zero; sourcesRef := ∅;
          created := 0; started := []; stopped := ∅ |};
     controller :=
       {| isActive := false; isAnalyzing := false; errorMessage := None;
          sessionRef := None; streamRef := None; frameIntervalRef := None;
          isClosingRef := false; clock := 0; timers := []; timersMade := 0;
          pending := []; outbox := []; connects := []; closed := [];
          tracksStopped := []; statusLog := [] |} |}.
End Lifecycle.

(** ** Platform: [JSON.parse]

    The text is a list of code units; a string value is kept as the code
    units it denotes, so that an escape may denote any unit, a number as
    it is written, and an object as its members in the order of their first
    appearance, a repeated key keeping the value given last (the order in
    which JavaScript enumerates the members is not used here). *)

#[warnings="-register-all"]
Inductive Json :=
  | JNull
  | JBool (b : bool)
  | JNumber (literal : string)
  | JString (units : list N)
  | JArray (items : list Json)
  | JObject (members : list (list N * Json)).

Definition units (s : string) : list N := N_of_ascii <$> list_ascii_of_string s.

(** The member [k] of an object under construction is given the value [v]:
    a key met before keeps its place and takes the new value. *)
Fixpoint setMember {V} (k : list N) (v : V) (ms : list (list N * V))
  : list (list N * V) :=
  match ms with
  | [] => [(k, v)]
  | (k', v') :: rest =>
      if bool_decide (k' = k) then (k, v) :: rest else (k', v') :: setMember k v rest
  end.

Definition is_json_ws (c : ascii) : bool :=
  let n := N_of_ascii c in ((n =? 32) || (n =? 9) || (n =? 10) || (n =? 13))%N.

Fixpoint skip_ws (s : list ascii) : list ascii :=
  match s with
  | c :: r => if is_json_ws c then skip_ws r else s
  | [] => []
  end.

Definition is_digit (c : ascii) : bool :=
  let n := N_of_ascii c in ((48 <=? n) && (n <=? 57))%N.

Definition hex_digit (c : ascii) : option N :=
  let n := N_of_ascii c in
  if ((48 <=? n) && (n <=? 57))%N then Some (n - 48)%N
  else if ((65 <=? n) && (n <=? 70))%N then Some (n - 55)%N
  else if ((97 <=? n) && (n <=? 102))%N then Some (n - 87)%N
  else None.

(** The characters of a string value after its opening quote. *)
Fixpoint string_body (s : list ascii) (acc : list N) : option (list N * list ascii) :=
  match s with
  | [] => None
  | c :: r =>
      let n := N_of_ascii c in
      if (n =? 34)%N then Some (acc, r)
      else if (n <? 32)%N then None
      else if (n =? 92)%N then
        match r with
        | e :: r' =>
            let k := N_of_ascii e in
            if (k =? 117)%N then
              match r' with
              | h1 :: h2 :: h3 :: h4 :: r'' =>
                  match hex_digit h1, hex_digit h2, hex_digit h3, hex_digit h4 with
                  | Some a, Some b, Some c, Some d =>
                      string_body r'' (acc ++ [((a * 16 + b) * 16 + c) * 16 + d])%N
                  | _, _, _, _ => None
                  end
              | _ => None
              end
            else
              let plain (u : N) := string_body r' (acc ++ [u]) in
              if (k =? 34)%N then plain 34%N          (* quote *)
              else if (k =? 92)%N then plain 92%N     (* backslash *)
              else if (k =? 47)%N then plain 47%N     (* slash *)
              else if (k =? 98)%N then plain 8%N      (* b *)
              else if (k =? 102)%N then plain 12%N    (* f *)
              else if (k =? 110)%N then plain 10%N    (* n *)
              else if (k =? 114)%N then plain 13%N    (* r *)
              else if (k =? 116)%N then plain 9%N     (* t *)
              else None
        | [] => None
        end
      else string_body r (acc ++ [n])
  end.

Fixpoint digits (s : list ascii) : list ascii * list ascii :=
  match s with
  | c :: r => if is_digit c then let '(d, r') := digits r in (c :: d, r') else ([], s)
  | [] => ([], [])
  end.

(** [-? int frac? exp?], with no leading zero in [int]. *)
Definition number_literal (s : list ascii) : option (list ascii * list ascii) :=
  let '(sign, s) :=
    match s with
    | c :: r => if Ascii.eqb c "-" then ([c], r) else ([], s)
    | [] => ([], s)
    end in
  let '(int, s) := digits s in
  match int with
  | [] => None
  | d :: more =>
      if Ascii.eqb d "0" && negb (bool_decide (more = [])) then None
      else
        let frac :=
          match s with
          | c :: r =>
              if Ascii.eqb c "." then
                match digits r with
                | ([], _) => None
                | (f, r') => Some (c :: f, r')
                end
              else Some ([], s)
          | [] => Some ([], s)
          end in
        '(frac, s) ← frac;
        let exp :=
          match s with
          | c :: r =>
              if Ascii.eqb c "e" || Ascii.eqb c "E" then
                let '(sg, r) :=
                  match r with
                  | g :: r' =>
                      if Ascii.eqb g "+" || Ascii.eqb g "-" then ([g], r') else ([], r)
                  | [] => ([], r)
                  end in
                match digits r with
                | ([], _) => None
                | (e, r') => Some (c :: sg ++ e, r')
                end
              else Some ([], s)
          | [] => Some ([], s)
          end in
        '(exp, s) ← exp;
        Some (sign ++ int ++ frac ++ exp, s)
  end.

Definition literal_prefix (word : string) (s : list ascii) : option (list ascii) :=
  let w := list_ascii_of_string word in
  if bool_decide (take (length w) s = w) then Some (drop (length w) s) else None.

(** A value, then the members of an array or of an object after the first
    one is due; [fuel] bounds the depth and the number of members. *)
Fixpoint value (fuel : nat) (s : list ascii) : option (Json * list ascii) :=
  match fuel with
  | O => None
  | S fuel =>
      match skip_ws s with
      | [] => None
      | c :: r =>
          let n := N_of_ascii c in
          if (n =? 123)%N then                            (* left brace *)
            match skip_ws r with
            | c' :: r' =>
                if (N_of_ascii c' =? 125)%N then Some (JObject [], r')
                else members fuel (c' :: r') []
            | [] => None
            end
          else if (n =? 91)%N then                        (* left bracket *)
            match skip_ws r with
            | c' :: r' =>
                if (N_of_ascii c' =? 93)%N then Some (JArray [], r')
                else elements fuel (c' :: r') []
            | [] => None
            end
          else if (n =? 34)%N then
            '(u, r') ← string_body r []; Some (JString u, r')
          else
            match literal_prefix "true" (c :: r), literal_prefix "false" (c :: r),
                  literal_prefix "null" (c :: r) with
            | Some r', _, _ => Some (JBool true, r')
            | _, Some r', _ => Some (JBool false, r')
            | _, _, Some r' => Some (JNull, r')
            | None, None, None =>
                '(l, r') ← number_literal (c :: r);
                Some (JNumber (string_of_list_ascii l), r')
            end
      end
  end
with elements (fuel : nat) (s : list ascii) (acc : list Json)
  : option (Json * list ascii) :=
  match fuel with
  | O => None
  | S fuel =>
      '(v, r) ← value fuel s;
      match skip_ws r with
      | c :: r' =>
          if (N_of_ascii c =? 44)%N then elements fuel r' (acc ++ [v])
          else if (N_of_ascii c =? 93)%N then Some (JArray (acc ++ [v]), r')
          else None
      | [] => None
      end
  end
with members (fuel : nat) (s : list ascii) (acc : list (list N * Json))
  : option (Json * list ascii) :=
  match fuel with
  | O => None
  | S fuel =>
      match skip_ws s with
      | q :: r =>
          if (N_of_ascii q =? 34)%N then
            '(k, r) ← string_body r [];
            match skip_ws r with
            | c :: r =>
                if (N_of_ascii c =? 58)%N then
                  '(v, r) ← value fuel r;
                  match skip_ws r with
                  | c :: r' =>
                      if (N_of_ascii c =? 44)%N then members fuel r' (setMember k v acc)
                      else if (N_of_ascii c =? 125)%N then Some (JObject (setMember k v acc), r')
                      else None
                  | [] => None
                  end
                else None
            | [] => None
            end
          else None
      | [] => None
      end
  end.

(** [JSON.parse(text)]; [None] is the thrown [SyntaxError].  A text of [n]
    characters needs no more than [n + 1] nested calls. *)
Definition JSON_parse (text : string) : option Json :=
  let s := list_ascii_of_string text in
  '(v, r) ← value (S (length s)) s;
  match skip_ws r with
  | [] => Some v
  | _ => None
  end.

(** ** [App.tsx]: [generateReport] *)

Record App := {
  isGeneratingReport : bool;
  examStats : option Json   (* [ExamStats | null]; the cast of the parsed value is unchecked *)
}.

(** What [await ai.models.generateContent(...)] does: it throws, or it
    returns a response whose [text] may be absent. *)
Inductive Reply :=
  | Failure
  | Response (responseText : option string).

Definition fallbackReport : Json :=
  JObject [
    (units "grade", JString (units "B"));
    (units "score", JNumber "75");
    (units "feedback",
     JString (units "Session completed successfully. Evaluation failed to generate, but completion is logged."));
    (units "strengths", JArray [JString (units "Punctuality"); JString (units "Basic interaction")]);
    (units "weaknesses", JArray [JString (units "Technical details unclear")]);
    (units "topicsCovered", JArray [JString (units "General Physics")])
  ].

(** [setExamStats(v)]: the state holds [null] or a value. *)
Definition setExamStats (v : Json) : option Json :=
  match v with
  | JNull => None
  | _ => Some v
  end.

(** [generateReport], lines 48-93 of [App.tsx]. *)
Definition generateReport (reply : Reply) (a : App) : App :=
  let attempt :=
    match reply with
    | Failure => None
    | Response responseText =>
        JSON_parse (if truthy responseText then default "" responseText else "{}")
    end in
  {| isGeneratingReport := false;
     examStats :=
       match attempt with
       | Some stats => setExamStats stats
       | None => Some fallbackReport
       end |}.

(** The fields the response schema requires. *)
Definition requiredFields : list string :=
  ["grade"; "score"; "feedback"; "strengths"; "weaknesses"; "topicsCovered"].

Definition hasField (v : Json) (name : string) : bool :=
  match v with
  | JObject ms => bool_decide (units name ∈ ms.*1)
  | _ => false
  end.

Definition hasRequiredFields (v : Json) : bool :=
  forallb (hasField v) requiredFields.

(** ** [App.tsx]: the report view

    The report branch of the conditional of line 197, which is evaluated
    when the report is not being generated and [examStats] is truthy, as
    every object is. *)

(** [stats.name] for a name that no prototype defines: the member of an
    object, [undefined] on any other value that is not [null]. *)
Definition Json_get (stats : Json) (name : string) : option Json :=
  match stats with
  | JObject ms => snd <$> find (fun m => bool_decide (m.1 = units name)) ms
  | _ => None
  end.

(** [x.map(f)] for an [f] that does not throw: the items of an array; on
    [undefined] and on any other parsed value, which has no function [map],
    a [TypeError]. *)
Definition mapItems (x : option Json) : result (list Json) :=
  match x with
  | Some (JArray items) => Ok items
  | _ => Throw TypeError
  end.

(** The three lists of the report, lines 249, 258 and 270, in the order
    in which the view evaluates them; the reads of [grade], [score] and
    [feedback] before them do not throw. *)
Definition reportLists (stats : Json) : result (list Json * list Json * list Json) :=
  strengths ← mapItems (Json_get stats "strengths");
  weaknesses ← mapItems (Json_get stats "weaknesses");
  topicsCovered ← mapItems (Json_get stats "topicsCovered");
  Ok (strengths, weaknesses, topicsCovered).

(** ** Vocabulary of the statements *)

(** The 6-bit groups and the padding of the base64 of a list of code
    units. *)
Fixpoint b64_sextets (l : list N) : list N :=
  match l with
  | [] => []
  | [a] =>
      let n := a * 65536 in
      [n / 262144; n / 4096 mod 64]
  | [a; b] =>
      let n := a * 65536 + b * 256 in
      [n / 262144; n / 4096 mod 64; n / 64 mod 64]
  | a :: b :: c :: r =>
      let n := a * 65536 + b * 256 + c in
      n / 262144 :: n / 4096 mod 64 :: n / 64 mod 64 :: n mod 64 :: b64_sextets r
  end.

Definition b64_padding (l : list N) : list ascii :=
  match (length l mod 3)%nat with
  | 1%nat => [pad_char; pad_char]
  | 2%nat => [pad_char]
  | _ => []
  end.

(** Messages that carry one thing. *)
Definition audioMessage (base64Audio : string) : Msg.LiveServerMessage :=
  {| Msg.serverContent := Some
       {| Msg.modelTurn := Some
            {| Msg.parts := Some
                 [{| Msg.inlineData := Some {| Msg.data := Some base64Audio |} |}] |};
          Msg.outputTranscription := None; Msg.inputTranscription := None;
          Msg.turnComplete := false; Msg.interrupted := false |} |}.

Definition outputFragment (fragment : string) : Msg.LiveServerMessage :=
  {| Msg.serverContent := Some
       {| Msg.modelTurn := None;
          Msg.outputTranscription := Some {| Msg.text := Some fragment |};
          Msg.inputTranscription := None;
          Msg.turnComplete := false; Msg.interrupted := false |} |}.

Definition inputFragment (fragment : string) : Msg.LiveServerMessage :=
  {| Msg.serverContent := Some
       {| Msg.modelTurn := None; Msg.outputTranscription := None;
          Msg.inputTranscription := Some {| Msg.text := Some fragment |};
          Msg.turnComplete := false; Msg.interrupted := false |} |}.

Definition turnCompleteSignal : Msg.LiveServerMessage :=
  {| Msg.serverContent := Some
       {| Msg.modelTurn := None; Msg.outputTranscription := None;
          Msg.inputTranscription := None;
          Msg.turnComplete := true; Msg.interrupted := false |} |}.

Definition interruptedSignal : Msg.LiveServerMessage :=
  {| Msg.serverContent := Some
       {| Msg.modelTurn := None; Msg.outputTranscription := None;
          Msg.inputTranscription := None;
          Msg.turnComplete := false; Msg.interrupted := true |} |}.

(** Messages that carry an output fragment and an input fragment: without
    a model turn, with a model turn that has no [parts], and with an audio
    payload that is not base64. *)
Definition bothFragmentsWith (modelTurn : option Msg.Content) : Msg.LiveServerMessage :=
  {| Msg.serverContent := Some
       {| Msg.modelTurn := modelTurn;
          Msg.outputTranscription := Some {| Msg.text := Some "Define" |};
          Msg.inputTranscription := Some {| Msg.text := Some "Sir" |};
          Msg.turnComplete := false; Msg.interrupted := false |} |}.

Definition bothFragments : Msg.LiveServerMessage := bothFragmentsWith None.

Definition bothFragmentsNoParts : Msg.LiveServerMessage :=
  bothFragmentsWith (Some {| Msg.parts := None |}).

Definition bothFragmentsGarbled : Msg.LiveServerMessage :=
  bothFragmentsWith
    (Some {| Msg.parts :=
               Some [{| Msg.inlineData := Some {| Msg.data := Some "*" |} |}] |}).

(** The message without its input fragment. *)
Definition withoutInput (message : Msg.LiveServerMessage) : Msg.LiveServerMessage :=
  {| Msg.serverContent :=
       (fun sc =>
          {| Msg.modelTurn := Msg.modelTurn sc;
             Msg.outputTranscription := Msg.outputTranscription sc;
             Msg.inputTranscription := None;
             Msg.turnComplete := Msg.turnComplete sc;
             Msg.interrupted := Msg.interrupted sc |}) <$> Msg.serverContent message |}.

(** The fragments of a list, put end to end. *)
Definition joined (fragments : list string) : string :=
  fold_right String.append "" fragments.

(** A text with its apostrophes turned into double quotes. *)
Fixpoint quoted (s : string) : string :=
  match s with
  | EmptyString => EmptyString
  | String c r => String (if Ascii.eqb c "'" then ascii_of_N 34 else c) (quoted r)
  end.

Definition fallbackState : App :=
  {| isGeneratingReport := false; examStats := Some fallbackReport |}.

(** The identifiers of the timers are at most [made]. *)
Definition ids_below (made : nat) (tms : list Timer) : Prop :=
  Forall (fun t => timerId t <= made)%nat tms.

(** The timer identifiers in use are those handed out so far. *)
Definition timers_wf (c : Controller) : Prop :=
  ids_below (timersMade c) (timers c)
  /\ forall i, frameIntervalRef c = Some i -> (i <= timersMade c)%nat.

(** The timer set by [onerror]. *)
Definition retryTimer (c : Controller) : Timer :=
  {| timerId := S (timersMade c); due := clock c + 1500;
     callback := CbStartSession; every := None |}.

(** What no step but [Mount] changes once the component is closing. *)
Definition sealed (before after : Controller) : Prop :=
  outbox after = outbox before /\ isClosingRef after = true.

Section Vocabulary.
Context {T : Type} `{Timeline T}.

(** The entries a turn commits, from the two accumulators. *)
Definition committed (env : Env T) (finalInput finalOutput : string)
  : list TranscriptionEntry :=
  match finalInput, finalOutput with
  | "", "" => []
  | "", _ => [examinerEntry env 0 finalOutput]
  | _, "" => [candidateEntry env finalInput]
  | _, _ => [candidateEntry env finalInput; examinerEntry env 1 finalOutput]
  end.

(** What an interruption leaves of the scheduler. *)
Definition interrupted_state (before after : Playback T) : Prop :=
  (forall source, source ∈ sourcesRef before -> source ∈ stopped after)
  /\ sourcesRef after = ∅
  /\ nextStartTimeRef after = t_zero
  /\ isExaminerSpeaking after = false.

(** Audio payloads with the context each arrives in and the buffer each
    decodes to; [on_time t0] says that each arrives no later than the end of
    the queue before it, the queue ending at [t0] at first. *)
Fixpoint on_time (t0 : T) (arrivals : list (Env T * string * AudioBuffer)) : Prop :=
  match arrivals with
  | [] => True
  | (env, base64Audio, audioBuffer) :: rest =>
      truthy (Some base64Audio) = true
      /\ decoded base64Audio = Ok audioBuffer
      /\ t_leb (currentTime env) t0 = true
      /\ on_time (t_add t0 (duration audioBuffer)) rest
  end.

(** The starts of buffers played one after the other from [t0], for the
    source nodes numbered from [n]. *)
Fixpoint back_to_back (n : SourceNode) (t0 : T)
    (arrivals : list (Env T * string * AudioBuffer))
  : list (SourceNode * T * AudioBuffer) :=
  match arrivals with
  | [] => []
  | (_, _, audioBuffer) :: rest =>
      (n, t0, audioBuffer) :: back_to_back (S n) (t_add t0 (duration audioBuffer)) rest
  end.

Definition queue_end (t0 : T) (arrivals : list (Env T * string * AudioBuffer)) : T :=
  fold_left (fun t arrival => t_add t (duration arrival.2)) arrivals t0.

Definition audioMessages (arrivals : list (Env T * string * AudioBuffer))
  : list (Env T * Event) :=
  (fun arrival => (arrival.1.1, Message (audioMessage arrival.1.2))) <$> arrivals.
End Vocabulary.

(** A context for examples: the output clock at [now], in seconds. *)
Definition envAt (now : Qc) : Env Qc :=
  {| currentTime := now; dateNow := fun call => Z.of_nat call;
     persona := selectedPersona "Charon"; getUserMedia := Some 1%nat;
     connectResult := Some 1%nat; videoRef := true; canvasRef := true;
     context2d := true; dataUrl := "data:image/jpeg;base64,AAAA" |}.

(** The buffer decoded from the payload [AAA=], one silent frame. *)
Definition silentFrame : AudioBuffer :=
  {| numberOfChannels := 1; frameLength := 1; sampleRate := 24000;
     channels := [[Num (0 # 32768)]] |}.

(** A session that is open, with one audio block queued for sending, and
    then torn down. *)
Definition tornDown : Room Qc :=
  run [(envAt 0, Mount); (envAt 0, Open 1%nat);
       (envAt 0, AudioProcess 1%nat [Num (1 # 2)]);
       (envAt 0, Teardown)] initial.

(** A live session: mounted and open, the frame interval running. *)
Definition live : Room Qc := run [(envAt 0, Mount); (envAt 0, Open 1%nat)] initial.

(** ** Vocabulary of the further properties *)

#[global] Instance Role_eq_dec : EqDecision Role.
Proof. solve_decision. Defined.

(** The text a message adds to the examiner accumulator and to the
    candidate accumulator. *)
Definition outputText (message : Msg.LiveServerMessage) : string :=
  match sc ← Msg.serverContent message; Msg.outputTranscription sc with
  | Some fragment => default "undefined" (Msg.text fragment)
  | None => ""
  end.

Definition inputText (message : Msg.LiveServerMessage) : string :=
  match sc ← Msg.serverContent message; Msg.outputTranscription sc with
  | Some _ => ""
  | None =>
      match sc ← Msg.serverContent message; Msg.inputTranscription sc with
      | Some fragment => default "undefined" (Msg.text fragment)
      | None => ""
      end
  end.

(** All the text of one role: the committed entries, then the pending
    accumulator. *)
Definition spoken (who : Role) (t : Transcript) : string :=
  (joined (text <$> filter (fun e => role e = who) (transcriptions t))
   ++ match who with
      | user => currentInputTextRef t
      | examiner => currentOutputTextRef t
      end)%string.

(** The pending text on screen is the pending text of the refs, and no
    committed entry is empty. *)
Definition transcript_ok (t : Transcript) : Prop :=
  currentInputText t = currentInputTextRef t
  /\ currentOutputText t = currentOutputTextRef t
  /\ Forall (fun e => text e <> "") (transcriptions t).

Section FurtherVocabulary.
Context {T : Type} `{Timeline T}.

(** What an event adds to the text of a role: the fragment of a message
    whose handler runs to its end. *)
Definition heard (who : Role) (env : Env T) (ev : Event) (r : Room T) : string :=
  match ev with
  | Message message =>
      match onmessage env message r with
      | Done _ =>
          match who with
          | user => inputText message
          | examiner => outputText message
          end
      | Rejected _ _ => ""
      end
  | _ => ""
  end.

Fixpoint heardAlong (who : Role) (trace : list (Env T * Event)) (r : Room T) : string :=
  match trace with
  | [] => ""
  | (env, ev) :: rest =>
      (heard who env ev r ++ heardAlong who rest (step env ev r))%string
  end.

(** Each started buffer ends no later than the next one starts. *)
Fixpoint no_overlap (l : list (SourceNode * T * AudioBuffer)) : Prop :=
  match l with
  | (_, t1, b1) :: rest =>
      match rest with
      | (_, t2, _) :: _ => t_leb (t_add t1 (duration b1)) t2 = true
      | [] => True
      end
      /\ no_overlap rest
  | [] => True
  end.

(** Payloads that decode, whenever they arrive. *)
Definition decodable (arrivals : list (Env T * string * AudioBuffer)) : Prop :=
  Forall (fun arrival =>
            truthy (Some arrival.1.2) = true /\ decoded arrival.1.2 = Ok arrival.2)
         arrivals.
End FurtherVocabulary.

(** The timer [i] has been handed out and is no longer set. *)
Definition timerGone (i : nat) (c : Controller) : Prop :=
  (i <= timersMade c)%nat /\ Forall (fun t => timerId t ≠ i) (timers c).

(** [[...(o ? [o] : [])]]: the list of an optional value. *)
Definition listOf {A} (o : option A) : list A :=
  match o with
  | Some a => [a]
  | None => []
  end.

(** No comma among the characters of a text. *)
Fixpoint commaFree (s : string) : Prop :=
  match s with
  | EmptyString => True
  | String c r => c <> ","%char /\ commaFree r
  end.

(** ** The countdown of [ExamRoom] and the shell of [App.tsx] *)

(** [s.padStart(targetLength, fill)] for a [fill] of one character. *)
Definition padStart (targetLength : nat) (fill : ascii) (s : string) : string :=
  (string_of_list_ascii (replicate (targetLength - String.length s) fill) ++ s)%string.

(** [formatTime], lines 147-151, for the whole number of seconds that
    [timeLeft] holds; [pretty] is [toString] on such a number. *)
Definition formatTime (seconds : nat) : string :=
  let mins := (seconds / 60)%nat in
  let secs := (seconds mod 60)%nat in
  (padStart 2 "0" (pretty mins) ++ ":" ++ padStart 2 "0" (pretty secs))%string.

(** What the effect of lines 133-145 does after a render. *)
Inductive CountdownEffect :=
  | SetInterval     (* [window.setInterval(() => setTimeLeft(prev => prev - 1), 1000)] *)
  | CallOnEnd       (* [onEnd(transcriptions)] *)
  | NoEffect.

Definition countdownEffect (isActive : bool) (timeLeft : nat) : CountdownEffect :=
  if isActive && (0 <? timeLeft)%nat then SetInterval
  else if (timeLeft =? 0)%nat && isActive then CallOnEnd
  else NoEffect.

(** One second later: the interval, if one was set, has run its callback
    once. *)
Definition tick (isActive : bool) (timeLeft : nat) : nat :=
  match countdownEffect isActive timeLeft with
  | SetInterval => (timeLeft - 1)%nat
  | _ => timeLeft
  end.

(** [types.ts]: the levels. *)
Inductive DifficultyLevel := EASY | MEDIUM | HARD.
Inductive ClassLevel := XI | XII.

(** The state of [App] besides the report. *)
Record Shell := {
  examStatus : ExamStatus;
  difficulty : DifficultyLevel;
  classLevel : ClassLevel;
  examDuration : nat;
  sessionTranscript : list TranscriptionEntry;
  report : App
}.

(** [startExam], lines 40-46 of [App.tsx]. *)
Definition startExam (selectedDifficulty : DifficultyLevel)
    (selectedDurationMinutes : nat) (selectedClass : ClassLevel) (a : Shell) : Shell :=
  {| examStatus := CONNECTING;
     difficulty := selectedDifficulty;
     classLevel := selectedClass;
     examDuration := (selectedDurationMinutes * 60)%nat;
     sessionTranscript := sessionTranscript a;
     report := {| isGeneratingReport := isGeneratingReport (report a);
                  examStats := None |} |}.

(** The decimal digit [d]. *)
Definition digit (d : nat) : ascii := ascii_of_nat (48 + d).

(** A number below 100 on two digits. *)
Definition twoDigits (n : nat) : string :=
  String (digit (n / 10)) (String (digit (n mod 10)) EmptyString).

(** ** Further examples *)

(** A message with an audio payload that is not base64, an output fragment
    and both signals. *)
Definition garbledAudio : Msg.LiveServerMessage :=
  {| Msg.serverContent := Some
       {| Msg.modelTurn := Some
            {| Msg.parts := Some
                 [{| Msg.inlineData := Some {| Msg.data := Some "*" |} |}] |};
          Msg.outputTranscription := Some {| Msg.text := Some "Next question" |};
          Msg.inputTranscription := None;
          Msg.turnComplete := true; Msg.interrupted := true |} |}.

(** A reply cut short and taken up again at once: a buffer started at 5
    seconds, the interruption, and a buffer started at 5 seconds again,
    while the first one would still be playing. *)
Definition bargedIn : Room Qc :=
  run [(envAt (Q2Qc 5), Message (audioMessage "AAA="));
       (envAt (Q2Qc 5), Message interruptedSignal);
       (envAt (Q2Qc 5), Message (audioMessage "AAA="))] initial.

(** The retry timeout of a channel error on the live session, 1.5 seconds
    later. *)
Definition retryDue : Room Qc := run [(envAt 0, Error); (envAt 0, Elapse 1500)] live.

(** The controller of the live session. *)
Definition liveController : Controller := controller live.

(** * Properties *)

Ltac euclid := Z.to_euclidean_division_equations; lia.

Ltac open_room r :=
  destruct r as [?t ?p c];
  destruct c as [act ana err ses str frm cls clk tms made pnd obx cns cld trk sts].

(** ** The codec *)

Section Triples.
Context {A : Type} (P : list A -> Prop).
Hypothesis P0 : P [].
Hypothesis P1 : forall a, P [a].
Hypothesis P2 : forall a b, P [a; b].
Hypothesis P3 : forall a b c r, P r -> P (a :: b :: c :: r).

Lemma list_ind3 : forall l, P l.
Proof.
  fix IH 1. intros [|a [|b [|c r]]];
    [apply P0 | apply P1 | apply P2 | apply P3, IH].
Qed.
End Triples.

Lemma b64_padding_step a b c (r : list N) :
  b64_padding (a :: b :: c :: r) = b64_padding r.
Proof.
  unfold b64_padding. cbn [length].
  replace (S (S (S (length r)))) with (length r + 1 * 3)%nat by lia.
  now rewrite Nat.Div0.mod_add.
Qed.

Lemma b64_groups_split l :
  b64_groups l = (b64_char <$> b64_sextets l) ++ b64_padding l.
Proof.
  induction l as [| a | a b | a b c r IH] using list_ind3; try reflexivity.
  rewrite b64_padding_step. cbn [b64_groups b64_sextets fmap list_fmap app].
  now rewrite IH.
Qed.

(** Facts about the alphabet, checked on its 64 entries. *)
Lemma below_64 (Q : N -> bool) :
  forallb (fun k => Q (N.of_nat k)) (seq 0 64) = true ->
  forall n, n < 64 -> Q n = true.
Proof.
  intros HQ n Hn. rewrite forallb_forall in HQ.
  rewrite <- (N2Nat.id n). apply HQ, in_seq. lia.
Qed.

Lemma b64_index_char n : n < 64 -> b64_index (b64_char n) = Some n.
Proof.
  intros Hn.
  apply (below_64 (fun n => bool_decide (b64_index (b64_char n) = Some n))) in Hn;
    [ now apply bool_decide_eq_true in Hn | now vm_compute ].
Qed.

Lemma b64_char_not_ws n : n < 64 -> is_ascii_whitespace (b64_char n) = false.
Proof.
  intros Hn.
  apply (below_64 (fun n => negb (is_ascii_whitespace (b64_char n)))) in Hn;
    [ now apply negb_true_iff in Hn | now vm_compute ].
Qed.

Lemma b64_char_not_pad n : n < 64 -> Ascii.eqb (b64_char n) pad_char = false.
Proof.
  intros Hn.
  apply (below_64 (fun n => negb (Ascii.eqb (b64_char n) pad_char))) in Hn;
    [ now apply negb_true_iff in Hn | now vm_compute ].
Qed.

Lemma b64_sextets_range l :
  Forall (fun a => a < 256) l -> Forall (fun s => s < 64) (b64_sextets l).
Proof.
  induction l as [| a | a b | a b c r IH] using list_ind3; intros Hl.
  - constructor.
  - inversion_clear Hl. cbn. repeat constructor; zify; euclid.
  - inversion_clear Hl as [|? ? ? Hl']. inversion_clear Hl'.
    cbn. repeat constructor; zify; euclid.
  - inversion_clear Hl as [|? ? ? Hl']. inversion_clear Hl' as [|? ? ? Hl''].
    inversion_clear Hl''.
    cbn [b64_sextets]. repeat (constructor; [zify; euclid|]). now apply IH.
Qed.

Lemma b64_bytes_sextets l :
  Forall (fun a => a < 256) l -> b64_bytes (b64_sextets l) = l.
Proof.
  induction l as [| a | a b | a b c r IH] using list_ind3; intros Hl.
  - reflexivity.
  - inversion_clear Hl. cbn. f_equal. zify; euclid.
  - inversion_clear Hl as [|? ? ? Hl']. inversion_clear Hl'.
    cbn. f_equal; [|f_equal]; zify; euclid.
  - inversion_clear Hl as [|? ? ? Hl']. inversion_clear Hl' as [|? ? ? Hl''].
    inversion_clear Hl''.
    cbn [b64_sextets b64_bytes]. rewrite IH by assumption.
    f_equal; [|f_equal; [|f_equal]]; zify; euclid.
Qed.

Lemma b64_groups_length l : N.of_nat (length (b64_groups l)) mod 4 = 0.
Proof.
  induction l as [| a | a b | a b c r IH] using list_ind3; try reflexivity.
  cbn [b64_groups length].
  replace (N.of_nat (S (S (S (S (length (b64_groups r)))))))
    with (N.of_nat (length (b64_groups r)) + 1 * 4) by lia.
  now rewrite N.Div0.mod_add.
Qed.

Lemma b64_sextets_length l : N.of_nat (length (b64_sextets l)) mod 4 <> 1.
Proof.
  induction l as [| a | a b | a b c r IH] using list_ind3; try (now vm_compute).
  cbn [b64_sextets length].
  replace (N.of_nat (S (S (S (S (length (b64_sextets r)))))))
    with (N.of_nat (length (b64_sextets r)) + 1 * 4) by lia.
  now rewrite N.Div0.mod_add.
Qed.

Lemma strip_padding_app (xs pad : list ascii) :
  Forall (fun c => Ascii.eqb c pad_char = false) xs ->
  pad = [] \/ pad = [pad_char] \/ pad = [pad_char; pad_char] ->
  strip_padding (xs ++ pad) = xs.
Proof.
  intros Hxs Hpad. unfold strip_padding. rewrite rev_app_distr.
  assert (Hrev : Forall (fun c => Ascii.eqb c pad_char = false) (rev xs))
    by now apply Forall_rev.
  assert (Hx : rev (rev xs) = xs) by apply rev_involutive.
  destruct Hpad as [-> | [-> | ->]]; cbn [rev app].
  - rewrite app_nil_r.
    destruct (rev xs) as [|p [|q r]]; [reflexivity| |];
      inversion_clear Hrev as [|? ? Hp _]; now rewrite Hp.
  - change (Ascii.eqb pad_char pad_char) with true.
    destruct (rev xs) as [|q r]; [exact Hx|].
    inversion_clear Hrev as [|? ? Hq _]. now rewrite Hq.
  - change (Ascii.eqb pad_char pad_char) with true. exact Hx.
Qed.

Lemma b64_padding_cases (l : list N) :
  b64_padding l = [] \/ b64_padding l = [pad_char]
  \/ b64_padding l = [pad_char; pad_char].
Proof.
  unfold b64_padding. destruct (length l mod 3)%nat as [|[|[|?]]]; auto.
Qed.

Lemma mapM_b64_index (ss : list N) :
  Forall (fun s => s < 64) ss -> mapM b64_index (b64_char <$> ss) = Some ss.
Proof.
  intros Hss. apply mapM_Some, Forall2_fmap_l, Forall_Forall2_diag.
  eapply Forall_impl; [exact Hss|]. intros s Hs. now apply b64_index_char.
Qed.

Lemma filter_all {A} (P : A -> Prop) `{forall x, Decision (P x)} (l : list A) :
  Forall P l -> filter P l = l.
Proof.
  induction 1 as [|x l Hx _ IH]; [reflexivity|].
  rewrite filter_cons_True by assumption. now rewrite IH.
Qed.

Lemma b64_padding_chars (l : list N) :
  Forall (fun c => is_ascii_whitespace c = false) (b64_padding l).
Proof.
  destruct (b64_padding_cases l) as [-> | [-> | ->]]; repeat constructor.
Qed.

Lemma to_N_codes (bytes : list byte) :
  Forall (fun a => a < 256) (Byte.to_N <$> bytes).
Proof.
  apply Forall_fmap, Forall_forall. intros b _. cbn.
  pose proof (Byte.to_N_bounded b). lia.
Qed.

(** What [atob] makes of the base64 of a list of code units. *)
Lemma atob_b64_groups (codes : list N) :
  Forall (fun a => a < 256) codes ->
  atob (string_of_list_ascii (b64_groups codes))
  = Some (string_of_list_ascii (ascii_of_N <$> codes)).
Proof.
  intros Hcodes. unfold atob.
  rewrite list_ascii_of_string_of_list_ascii.
  pose proof (b64_sextets_range codes Hcodes) as Hsx.
  rewrite filter_all.
  2:{ rewrite b64_groups_split. apply Forall_app; split.
      - apply Forall_fmap. eapply Forall_impl; [exact Hsx|].
        intros s Hs. now apply b64_char_not_ws.
      - apply b64_padding_chars. }
  rewrite b64_groups_length. cbn [N.eqb].
  rewrite b64_groups_split, strip_padding_app.
  2:{ apply Forall_fmap. eapply Forall_impl; [exact Hsx|].
      intros s Hs. now apply b64_char_not_pad. }
  2:{ apply b64_padding_cases. }
  rewrite length_fmap.
  destruct (N.eqb_spec (N.of_nat (length (b64_sextets codes)) mod 4) 1) as [E|_];
    [now apply b64_sextets_length in E|].
  rewrite mapM_b64_index by assumption. cbn.
  now rewrite b64_bytes_sextets.
Qed.

Lemma append_cons (c : ascii) (s t : string) :
  (String c s ++ t)%string = String c (s ++ t)%string.
Proof. reflexivity. Qed.

Lemma append_empty_r (s : string) : (s ++ EmptyString)%string = s.
Proof.
  induction s as [|c s IH]; [reflexivity | now rewrite append_cons, IH].
Qed.

Lemma append_snoc (acc : string) (c : ascii) (rest : string) :
  ((acc ++ String c EmptyString) ++ rest)%string = (acc ++ String c rest)%string.
Proof.
  induction acc as [|a acc IH]; [reflexivity | now rewrite !append_cons, IH].
Qed.

Lemma binary_string (bytes : list byte) (acc : string) :
  fold_left (fun binary b => binary ++ String (fromCharCode b) EmptyString)%string
    bytes acc
  = (acc ++ string_of_list_ascii (fromCharCode <$> bytes))%string.
Proof.
  revert acc. induction bytes as [|b bytes IH]; intros acc; cbn.
  - now rewrite append_empty_r.
  - now rewrite IH, append_snoc.
Qed.

(** C5: decoding the transport text of any byte sequence gives the sequence
    back: [decode (encode B)] does not throw and returns [B]. *)
Theorem C5_codec_roundtrip (B : list byte) : decode (encode B) = Some B.
Proof.
  unfold decode, encode.
  rewrite (binary_string B EmptyString : _ = string_of_list_ascii _).
  unfold btoa. rewrite list_ascii_of_string_of_list_ascii.
  rewrite <- list_fmap_compose.
  rewrite (list_fmap_ext (N_of_ascii ∘ fromCharCode) Byte.to_N B).
  2:{ intros _ b _. cbn. unfold fromCharCode. rewrite ascii_of_byte_via_N.
      apply N_ascii_embedding. pose proof (Byte.to_N_bounded b). lia. }
  rewrite atob_b64_groups by apply to_N_codes. cbn.
  rewrite list_ascii_of_string_of_list_ascii. f_equal.
  rewrite <- !list_fmap_compose.
  transitivity (Datatypes.id <$> B); [|apply list_fmap_id].
  apply list_fmap_ext. intros _ b _. cbn.
  unfold charCodeAt. now rewrite <- ascii_of_byte_via_N, byte_of_ascii_of_byte.
Qed.

Example codec_examples :
  encode [x48; x69] = "SGk="
  /\ decode "SGk=" = Some [x48; x69]
  /\ decode "SG k=" = Some [x48; x69]
  /\ decode "SGk" = Some [x48; x69]
  /\ decode "S" = None
  /\ decode "SGk*" = None.
Proof. repeat split. Qed.

(** ** PCM conversion *)

(** *** Typed arrays *)

Lemma fill_length {A} (f : nat -> A) (js : list nat) (l : list A) :
  length (fold_left (fun l i => <[i := f i]> l) js l) = length l.
Proof.
  revert l. induction js as [|j js IH]; intros l; [reflexivity|].
  cbn. rewrite IH. apply length_insert.
Qed.

Lemma fill_lookup {A} (f : nat -> A) (k : nat) (l : list A) (i : nat) :
  fold_left (fun l i => <[i := f i]> l) (seq 0 k) l !! i
  = if decide (i < k /\ i < length l)%nat then Some (f i) else l !! i.
Proof.
  induction k as [|k IH].
  - cbn. case_decide as Hi; [lia | reflexivity].
  - rewrite seq_S, fold_left_app. cbn [fold_left Nat.add].
    set (l' := fold_left _ _ _) in *.
    assert (Hlen : length l' = length l) by apply fill_length.
    destruct (decide (i = k)) as [->|Hne].
    + clear IH. destruct (decide (k < length l)%nat) as [Hk|Hk].
      * rewrite list_lookup_insert_eq by lia. case_decide; [reflexivity | lia].
      * rewrite list_insert_ge by lia. case_decide; [lia|].
        transitivity (@None A); [|symmetry]; apply lookup_ge_None; lia.
    + rewrite list_lookup_insert_ne by congruence. rewrite IH.
      repeat case_decide; try lia; reflexivity.
Qed.

Section Pairs.
Context {A : Type} (P : list A -> Prop).
Hypothesis P0 : P [].
Hypothesis P1 : forall a, P [a].
Hypothesis P2 : forall a b r, P r -> P (a :: b :: r).

Lemma list_ind2 : forall l, P l.
Proof.
  fix IH 1. intros [|a [|b r]]; [apply P0 | apply P1 | apply P2, IH].
Qed.
End Pairs.

Lemma int16_pairs_length (data : list byte) :
  Nat.even (length data) = true ->
  (2 * length (int16_pairs data) = length data)%nat.
Proof.
  induction data as [| a | a b r IH] using list_ind2; intros Hev.
  - reflexivity.
  - discriminate.
  - cbn [int16_pairs length] in *. specialize (IH Hev). lia.
Qed.

Lemma Qtrunc_nat_ratio (a b : nat) :
  (0 < b)%nat -> Qtrunc (Z.of_nat a # Pos.of_nat b) = Z.of_nat (a / b).
Proof.
  intros Hb. unfold Qtrunc. cbn [Qnum Qden].
  rewrite Z.quot_div_nonneg by lia.
  replace (Z.pos (Pos.of_nat b)) with (Z.of_nat b) by lia.
  now rewrite Nat2Z.inj_div.
Qed.

Lemma Qceiling_nat_ratio (a b : nat) :
  (0 < b)%nat -> (a / b <= Z.to_nat (Qceiling (Z.of_nat a # Pos.of_nat b)))%nat.
Proof.
  intros Hb.
  pose proof (Qle_ceiling (Z.of_nat a # Pos.of_nat b)) as Hc.
  pose proof (Qfloor_le (Z.of_nat a # Pos.of_nat b)) as Hf.
  assert (Qfloor (Z.of_nat a # Pos.of_nat b) <= Qceiling (Z.of_nat a # Pos.of_nat b))%Z
    as Hfc by (rewrite Zle_Qle; eapply Qle_trans; eassumption).
  unfold Qfloor in Hfc at 1. cbn [Qnum Qden] in Hfc.
  replace (Z.pos (Pos.of_nat b)) with (Z.of_nat b) in Hfc by lia.
  rewrite <- Nat2Z.inj_div in Hfc. lia.
Qed.

(** What [decodeAudioData] returns on [L] samples and [N] channels with at
    least one frame: no check of divisibility, [L / N] frames, rounded
    down. *)
Lemma decodeAudioData_frames (data : list byte) (rate : positive) (N : nat) :
  let dataInt16 := int16_pairs data in
  let L := length dataInt16 in
  Nat.even (length data) = true ->
  (0 < N <= L)%nat ->
  (Z.of_nat (L / N) < 4294967296)%Z ->
  exists buffer,
    decodeAudioData data rate N = Ok buffer
    /\ numberOfChannels buffer = N
    /\ frameLength buffer = (L / N)%nat
    /\ length (channels buffer) = N
    /\ forall c, (c < N)%nat ->
         exists channelData,
           channels buffer !! c = Some channelData
           /\ length channelData = (L / N)%nat
           /\ forall i, (i < L / N)%nat ->
                exists v, dataInt16 !! (i * N + c)%nat = Some v
                  /\ channelData !! i = Some (Num (inject_Z v / 32768)).
Proof.
  intros dataInt16 L Hev [HN HL] Hmax.
  unfold decodeAudioData, Int16Array_of_buffer. rewrite Hev. cbn [mbind result_bind].
  fold dataInt16. fold L.
  assert (Hframes : (0 < L / N)%nat) by (apply Nat.div_str_pos; lia).
  replace (nat_div L N) with (Num (Z.of_nat L # Pos.of_nat N))
    by (destruct N; [lia | reflexivity]).
  unfold createBuffer, ToUint32.
  rewrite Qtrunc_nat_ratio by lia.
  rewrite Z.mod_small by lia. rewrite Nat2Z.id.
  destruct (N =? 0)%nat eqn:E1; [apply Nat.eqb_eq in E1; lia|].
  destruct (L / N =? 0)%nat eqn:E2; [apply Nat.eqb_eq in E2; lia|].
  cbn [orb mbind result_bind numberOfChannels frameLength sampleRate channels].
  eexists. split; [reflexivity|].
  cbn [numberOfChannels frameLength sampleRate channels].
  split; [reflexivity|]. split; [reflexivity|].
  split; [now rewrite length_imap, length_replicate|].
  intros c Hc. eexists. split.
  { rewrite list_lookup_imap, lookup_replicate_2 by lia. reflexivity. }
  unfold fill_channel. split; [now rewrite fill_length, length_replicate|].
  intros i Hi.
  assert (Hik : (i * N + c < L)%nat).
  { pose proof (Nat.Div0.mul_div_le L N). nia. }
  destruct (lookup_lt_is_Some_2 dataInt16 (i * N + c)%nat Hik) as [v Hv].
  exists v. split; [exact Hv|].
  rewrite (fill_lookup (fun i => sample_at dataInt16 (i * N + c))).
  rewrite length_replicate.
  pose proof (Qceiling_nat_ratio L N ltac:(lia)) as Hceil.
  unfold passes. case_decide as Hd; [|lia].
  unfold sample_at. now rewrite Hv.
Qed.

Lemma ToInt16_range (x : number) : (-32768 <= ToInt16 x <= 32767)%Z.
Proof.
  destruct x as [q|]; cbn [ToInt16]; [|lia].
  destruct (Z.leb_spec 32768 (Qtrunc q mod 65536)); 
    pose proof (Z.mod_pos_bound (Qtrunc q) 65536); lia.
Qed.

Lemma to_N_byte_of_N (n : N) : Byte.to_N (byte_of_N n) = n mod 256.
Proof.
  unfold byte_of_N.
  destruct (Byte.of_N (n mod 256)) as [b|] eqn:E; cbn.
  - now apply Byte.to_of_N.
  - apply Byte.of_N_None_iff in E. pose proof (N.mod_lt n 256). lia.
Qed.

Lemma int16_bytes_roundtrip (int16 : list Z) :
  Forall (fun v => -32768 <= v <= 32767)%Z int16 ->
  int16_pairs (Uint8Array_of_Int16Array int16) = int16.
Proof.
  induction 1 as [|v int16 Hv _ IH]; [reflexivity|].
  unfold Uint8Array_of_Int16Array in *. cbn [mbind list_bind app].
  cbn [app int16_pairs]. rewrite IH. f_equal.
  rewrite !to_N_byte_of_N.
  destruct (Z.leb_spec 32768
    (Z.of_N (Z.to_N (v mod 65536) mod 256 mod 256)
     + 256 * Z.of_N ((Z.to_N (v mod 65536) / 256) mod 256))); zify;
    Z.to_euclidean_division_equations; lia.
Qed.

Lemma int16_bytes_length (int16 : list Z) :
  length (Uint8Array_of_Int16Array int16) = (2 * length int16)%nat.
Proof.
  induction int16 as [|v int16 IH]; [reflexivity|].
  unfold Uint8Array_of_Int16Array in *. cbn [mbind list_bind app length].
  rewrite IH. lia.
Qed.

Lemma int16_bytes_even (int16 : list Z) :
  Nat.even (length (Uint8Array_of_Int16Array int16)) = true.
Proof.
  rewrite int16_bytes_length, Nat.even_mul. reflexivity.
Qed.

(** The scaled sample of a float in [-1, 1): truncation stays within 16
    bits, so nothing wraps. *)
Lemma scaled_in_range (q : Q) :
  (-1 <= q)%Q -> (q < 1)%Q ->
  (-32768 <= Qtrunc (q * 32768) <= 32767)%Z.
Proof.
  destruct q as [a b]. unfold Qle, Qlt, Qtrunc. cbn [Qnum Qden Qmult].
  intros Hlo Hhi.
  replace (Z.pos (b * 1)) with (Z.pos b) by lia.
  split.
  - apply Z.quot_le_lower_bound; lia.
  - enough (a * 32768 ÷ Z.pos b < 32768)%Z by lia.
    destruct (Z.le_gt_cases 0 a) as [Ha|Ha].
    + apply Z.quot_lt_upper_bound; lia.
    + pose proof (Z.quot_le_upper_bound (a * 32768) (Z.pos b) 0); lia.
Qed.

Lemma ToInt16_scaled (q : Q) :
  (-1 <= q)%Q -> (q < 1)%Q ->
  ToInt16 (number_mul (Num q) 32768) = Qtrunc (q * 32768).
Proof.
  intros Hlo Hhi. pose proof (scaled_in_range q Hlo Hhi) as Hr.
  cbn [number_mul ToInt16].
  destruct (Z.leb_spec 32768 (Qtrunc (q * 32768) mod 65536));
    Z.to_euclidean_division_equations; lia.
Qed.

(** Truncation moves a number by less than one. *)
Lemma Qtrunc_error (q : Q) :
  (Qabs (q - inject_Z (Qtrunc (q * 32768)) / 32768) < 1 # 32768)%Q.
Proof.
  destruct q as [a b].
  apply Qabs_Qlt_condition.
  unfold Qtrunc. cbn [Qnum Qden Qmult].
  replace (Z.pos (b * 1)) with (Z.pos b) by lia.
  pose proof (Z.quot_rem' (a * 32768) (Z.pos b)) as Hqr.
  assert (Hrem : (- Z.pos b < Z.rem (a * 32768) (Z.pos b) < Z.pos b)%Z).
  { pose proof (Z.rem_bound_abs (a * 32768) (Z.pos b)). lia. }
  set (t := (a * 32768 ÷ Z.pos b)%Z) in *.
  set (r := Z.rem (a * 32768) (Z.pos b)) in *.
  unfold Qlt, Qminus, Qplus, Qopp, Qdiv, Qmult, Qinv, inject_Z.
  cbn [Qnum Qden]. cbn.
  split; nia.
Qed.

Lemma decodeAudioData_odd (data : list byte) (rate : positive) (N : nat) :
  Nat.even (length data) = false -> decodeAudioData data rate N = Throw RangeError.
Proof.
  intros Hodd. unfold decodeAudioData, Int16Array_of_buffer. now rewrite Hodd.
Qed.

Lemma decodeAudioData_no_frame (data : list byte) (rate : positive) (N : nat) :
  Nat.even (length data) = true ->
  (N = 0 \/ length (int16_pairs data) < N)%nat ->
  decodeAudioData data rate N = Throw NotSupportedError.
Proof.
  intros Hev HN. unfold decodeAudioData, Int16Array_of_buffer. rewrite Hev.
  cbn [mbind result_bind]. unfold createBuffer.
  destruct N as [|N']; [reflexivity|].
  destruct HN as [HN|HN]; [discriminate|].
  unfold nat_div, ToUint32. rewrite Qtrunc_nat_ratio by lia.
  rewrite Nat.div_small by lia. reflexivity.
Qed.

(** C7 (amended): [decodeAudioData] on an even number of bytes holding [L]
    16-bit samples, with [N] channels and at least one frame, makes no check
    that [N] divides [L]: it returns [N] channel buffers of [L / N] elements
    each, rounded down, element [i] of channel [c] being sample [i * N + c]
    over 32768. *)
Theorem C7_deinterleave (data : list byte) (rate : positive) (N : nat) :
  Nat.even (length data) = true ->
  (0 < N <= length (int16_pairs data))%nat ->
  (Z.of_nat (length (int16_pairs data) / N) < 4294967296)%Z ->
  exists buffer,
    decodeAudioData data rate N = Ok buffer
    /\ numberOfChannels buffer = N
    /\ frameLength buffer = (length (int16_pairs data) / N)%nat
    /\ length (channels buffer) = N
    /\ forall c, (c < N)%nat ->
         exists channelData,
           channels buffer !! c = Some channelData
           /\ length channelData = (length (int16_pairs data) / N)%nat
           /\ forall i, (i < length (int16_pairs data) / N)%nat ->
                exists v, int16_pairs data !! (i * N + c)%nat = Some v
                  /\ channelData !! i = Some (Num (inject_Z v / 32768)).
Proof. exact (decodeAudioData_frames data rate N). Qed.

Lemma C7_deinterleave_witness :
  exists buffer,
    decodeAudioData [x01; x00; x02; x00; x03; x00; x04; x00] 24000 2 = Ok buffer
    /\ frameLength buffer = 2%nat.
Proof.
  destruct (C7_deinterleave [x01; x00; x02; x00; x03; x00; x04; x00] 24000 2)
    as (buffer & Hb & _ & Hf & _);
    [reflexivity | cbn; lia | cbn; lia |].
  exists buffer. split; [exact Hb | exact Hf].
Defined.

(** C7, as stated, fails: three samples on two channels are not refused. *)
Lemma C7_no_format_error :
  (length (int16_pairs [x01; x00; x02; x00; x03; x00]) mod 2 <> 0)%nat
  /\ decodeAudioData [x01; x00; x02; x00; x03; x00] 24000 2
     = Ok {| numberOfChannels := 2; frameLength := 1; sampleRate := 24000;
             channels := [[Num (1 # 32768)]; [Num (2 # 32768)]] |}.
Proof. split; [cbn; lia | reflexivity]. Qed.

(** C6 (amended): a non-empty block of samples in [-1, 1) comes back from
    the 16-bit conversion and the single-channel decoding with every sample
    off by less than 1/32768. *)
Theorem C6_pcm_roundtrip (samples : list Q) (rate : positive) :
  samples <> [] ->
  Forall (fun q => -1 <= q /\ q < 1)%Q samples ->
  (Z.of_nat (length samples) < 4294967296)%Z ->
  exists buffer channelData,
    decodeAudioData (floatTo16BitPCM (Num <$> samples)) rate 1 = Ok buffer
    /\ channels buffer = [channelData]
    /\ length channelData = length samples
    /\ forall i q, samples !! i = Some q ->
         exists y, channelData !! i = Some (Num y)
           /\ (Qabs (q - y) < 1 # 32768)%Q.
Proof.
  intros Hne Hrange Hmax.
  set (int16 := (fun x => ToInt16 (number_mul x 32768)) <$> (Num <$> samples)).
  assert (Hpairs : int16_pairs (floatTo16BitPCM (Num <$> samples)) = int16).
  { apply int16_bytes_roundtrip, Forall_fmap, Forall_forall.
    intros x _. apply ToInt16_range. }
  assert (Hlen : length int16 = length samples)
    by (unfold int16; now rewrite !length_fmap).
  assert (Hpos : (0 < length samples)%nat)
    by (destruct samples; [congruence | cbn; lia]).
  destruct (decodeAudioData_frames (floatTo16BitPCM (Num <$> samples)) rate 1)
    as (buffer & Hb & _ & _ & Hch & Hchan).
  { apply int16_bytes_even. }
  { rewrite Hpairs, Hlen. lia. }
  { rewrite Hpairs, Hlen, Nat.div_1_r. exact Hmax. }
  rewrite Hpairs, Hlen, Nat.div_1_r in Hchan.
  destruct (Hchan 0%nat ltac:(lia)) as (channelData & H0 & Hl & Hval).
  exists buffer, channelData. split; [exact Hb|]. split.
  { destruct (channels buffer) as [|ch [|? ?]]; try discriminate.
    cbn in H0. congruence. }
  split; [exact Hl|].
  intros i q Hi.
  destruct (Hval i) as (v & Hv & Hy); [now apply lookup_lt_Some in Hi|].
  exists (inject_Z v / 32768)%Q. split; [exact Hy|].
  replace (i * 1 + 0)%nat with i in Hv by lia.
  unfold int16 in Hv. rewrite !list_lookup_fmap, Hi in Hv.
  cbn [fmap option_fmap option_map] in Hv. injection Hv as <-.
  rewrite Forall_lookup in Hrange. destruct (Hrange i q Hi) as [Hlo Hhi].
  pose proof (ToInt16_scaled q Hlo Hhi) as Ht.
  cbn [number_mul ToInt16] in Ht. rewrite Ht.
  apply Qtrunc_error.
Qed.

Lemma C6_pcm_roundtrip_witness :
  exists buffer channelData,
    decodeAudioData (floatTo16BitPCM (Num <$> [1 # 2; -1; 0]%Q)) 16000 1 = Ok buffer
    /\ channels buffer = [channelData]
    /\ length channelData = 3%nat.
Proof.
  destruct (C6_pcm_roundtrip [1 # 2; -1; 0]%Q 16000)
    as (buffer & channelData & Hb & Hc & Hl & _).
  - discriminate.
  - repeat constructor; unfold Qle, Qlt; cbn; lia.
  - cbn; lia.
  - exists buffer, channelData. repeat split; assumption.
Defined.

(** An empty block does not come back: [createBuffer] refuses a buffer of no
    frame. *)
Example empty_block_rejected :
  decodeAudioData (floatTo16BitPCM []) 16000 1 = Throw NotSupportedError.
Proof. reflexivity. Qed.

(** C6, as stated, fails at the end of the range: the sample 1.0 scales to
    32768, which wraps to -32768 and comes back as -1.0. *)
Lemma C6_full_scale_wraps :
  (-1 <= 1 /\ 1 <= 1)%Q
  /\ decodeAudioData (floatTo16BitPCM [Num 1]) 16000 1
     = Ok {| numberOfChannels := 1; frameLength := 1; sampleRate := 16000;
             channels := [[Num (-32768 # 32768)]] |}
  /\ ~ (Qabs (1 - (-32768 # 32768)) <= 1 # 32768)%Q.
Proof.
  split; [split; unfold Qle; cbn; lia|].
  split; [reflexivity|].
  unfold Qle. cbn. lia.
Qed.

(** ** The playback scheduler *)

Section Scheduler.
Context {T : Type} `{Timeline T}.

(** One audio payload: the start is the later of the end of the queue
    and the output clock, and the queue then ends one duration later. *)
Lemma audioPayload_schedule (env : Env T) (base64Audio : string)
    (audioBuffer : AudioBuffer) (p : Playback T) :
  truthy (Some base64Audio) = true ->
  decoded base64Audio = Ok audioBuffer ->
  let start := Math_max (nextStartTimeRef p) (currentTime env) in
  audioPayload env (Some base64Audio) p
  = Done {| isExaminerSpeaking := true;
            nextStartTimeRef := t_add start (duration audioBuffer);
            sourcesRef := sourcesRef p ∪ {[created p]};
            created := S (created p);
            started := started p ++ [(created p, start, audioBuffer)];
            stopped := stopped p |}.
Proof.
  intros Ht Hd. destruct base64Audio as [|c rest]; [discriminate|].
  cbn [audioPayload]. now rewrite Hd.
Qed.

Lemma onmessage_audio (env : Env T) (base64Audio : string)
    (audioBuffer : AudioBuffer) (r : Room T) :
  truthy (Some base64Audio) = true ->
  decoded base64Audio = Ok audioBuffer ->
  step env (Message (audioMessage base64Audio)) r
  = set_playback
      (schedule audioBuffer (align (currentTime env) (playback r))) r.
Proof.
  intros Ht Hd. cbn [step]. unfold onmessage.
  cbn [base64Audio_of audioMessage Msg.serverContent Msg.modelTurn Msg.parts
       head mbind option_bind Msg.inlineData Msg.data].
  rewrite (audioPayload_schedule env base64Audio audioBuffer) by assumption.
  destruct r as [t p c]. reflexivity.
Qed.

Lemma Math_max_r (a b : T) : t_leb a b = true -> Math_max a b = b.
Proof. unfold Math_max. now intros ->. Qed.

Lemma Math_max_l (a b : T) : t_leb b a = true -> Math_max a b = a.
Proof.
  unfold Math_max. intros Hba.
  destruct (t_leb a b) eqn:Hab; [|reflexivity].
  symmetry. now apply t_leb_antisym.
Qed.

(** Payloads that arrive on time are played back to back, however many. *)
Lemma gapless_run (arrivals : list (Env T * string * AudioBuffer)) (r : Room T) :
  on_time (nextStartTimeRef (playback r)) arrivals ->
  let r' := run (audioMessages arrivals) r in
  started (playback r')
  = started (playback r)
    ++ back_to_back (created (playback r)) (nextStartTimeRef (playback r)) arrivals
  /\ nextStartTimeRef (playback r') = queue_end (nextStartTimeRef (playback r)) arrivals.
Proof.
  revert r. induction arrivals as [|[[env b] buf] rest IH]; intros r Hon.
  - cbn. now rewrite app_nil_r.
  - destruct Hon as (Ht & Hd & Hnow & Hrest).
    cbn [audioMessages fmap list_fmap run fst snd].
    rewrite (onmessage_audio env b buf) by assumption.
    set (r1 := set_playback _ r).
    assert (H1 : nextStartTimeRef (playback r1)
                 = t_add (nextStartTimeRef (playback r)) (duration buf)
                 /\ started (playback r1)
                    = started (playback r)
                      ++ [(created (playback r), nextStartTimeRef (playback r), buf)]
                 /\ created (playback r1) = S (created (playback r))).
    { subst r1. destruct r as [t p c].
      cbn [set_playback playback schedule align nextStartTimeRef started created].
      now rewrite Math_max_l by assumption. }
    destruct H1 as (Hn & Hs & Hc).
    destruct (IH r1) as [IHs IHn]; [now rewrite Hn|].
    fold (audioMessages rest). split.
    + rewrite IHs, Hs, Hn, Hc, <- app_assoc. reflexivity.
    + rewrite IHn, Hn. reflexivity.
Qed.

(** C1: three audio payloads, the first arriving no earlier than the end of
    the queue and the next two no later than the end of the buffer before
    them, are started at [now0], [now0 + d1] and [now0 + d1 + d2]: each
    buffer starts where the previous one ends. *)
Theorem C1_gapless (env0 env1 env2 : Env T) (b1 b2 b3 : string)
    (buf1 buf2 buf3 : AudioBuffer) (r : Room T) :
  truthy (Some b1) = true -> decoded b1 = Ok buf1 ->
  truthy (Some b2) = true -> decoded b2 = Ok buf2 ->
  truthy (Some b3) = true -> decoded b3 = Ok buf3 ->
  let now0 := currentTime env0 in
  let d1 : T := duration buf1 in
  let d2 : T := duration buf2 in
  let d3 : T := duration buf3 in
  t_leb (nextStartTimeRef (playback r)) now0 = true ->
  t_leb (currentTime env1) (t_add now0 d1) = true ->
  t_leb (currentTime env2) (t_add (t_add now0 d1) d2) = true ->
  let r' := run [(env0, Message (audioMessage b1));
                 (env1, Message (audioMessage b2));
                 (env2, Message (audioMessage b3))] r in
  let n := created (playback r) in
  started (playback r')
  = started (playback r)
    ++ [(n, now0, buf1);
        (S n, t_add now0 d1, buf2);
        (S (S n), t_add (t_add now0 d1) d2, buf3)]
  /\ nextStartTimeRef (playback r') = t_add (t_add (t_add now0 d1) d2) d3.
Proof.
  intros Ht1 Hd1 Ht2 Hd2 Ht3 Hd3 now0 d1 d2 d3 H0 H1 H2 r' n.
  subst r'. cbn [run].
  rewrite (onmessage_audio env0 b1 buf1) by assumption.
  set (r1 := set_playback _ r).
  assert (Hr1 : nextStartTimeRef (playback r1) = t_add now0 d1
                /\ started (playback r1) = started (playback r) ++ [(n, now0, buf1)]
                /\ created (playback r1) = S n).
  { subst r1 n. destruct r as [t p c].
    cbn [set_playback playback schedule align nextStartTimeRef started created] in *.
    now rewrite (Math_max_r _ now0) by assumption. }
  destruct Hr1 as (Hn & Hs & Hc).
  destruct (gapless_run [(env1, b2, buf2); (env2, b3, buf3)] r1) as [Gs Gn].
  { rewrite Hn. cbn [on_time]. now repeat split. }
  cbn [audioMessages fmap list_fmap run fst snd] in Gs, Gn.
  rewrite Gs, Gn, Hs, Hn, Hc, <- app_assoc. now split.
Qed.
End Scheduler.

Lemma C1_gapless_witness :
  let tick : Qc := duration silentFrame in
  let r' := run [(envAt 0, Message (audioMessage "AAA="));
                 (envAt 0, Message (audioMessage "AAA="));
                 (envAt tick, Message (audioMessage "AAA="))] initial in
  started (playback r')
  = [] ++ [(0%nat, 0%Qc, silentFrame);
           (1%nat, (0 + tick)%Qc, silentFrame);
           (2%nat, (0 + tick + tick)%Qc, silentFrame)]
  /\ nextStartTimeRef (playback r') = (0 + tick + tick + tick)%Qc.
Proof.
  refine (C1_gapless (envAt 0) (envAt 0) (envAt (duration silentFrame))
            "AAA=" "AAA=" "AAA=" silentFrame silentFrame silentFrame initial
            _ _ _ _ _ _ _ _ _);
    reflexivity.
Defined.

(** ** The transcript *)

Lemma append_assoc (a b c : string) : ((a ++ b) ++ c)%string = (a ++ (b ++ c))%string.
Proof.
  induction a as [|x a IH]; [reflexivity | now rewrite !append_cons, IH].
Qed.

Section Transcripts.
Context {T : Type} `{Timeline T}.

(** A fragment of one side only is appended to the accumulator of that
    side. *)
Lemma step_outputFragment (env : Env T) (fragment : string) (r : Room T) :
  step env (Message (outputFragment fragment)) r
  = set_transcript
      {| transcriptions := transcriptions (transcript r);
         currentInputText := currentInputText (transcript r);
         currentOutputText := currentOutputText (transcript r) ++ fragment;
         currentInputTextRef := currentInputTextRef (transcript r);
         currentOutputTextRef := currentOutputTextRef (transcript r) ++ fragment |}%string
      r.
Proof. destruct r as [t p c]. reflexivity. Qed.

Lemma step_inputFragment (env : Env T) (fragment : string) (r : Room T) :
  step env (Message (inputFragment fragment)) r
  = set_transcript
      {| transcriptions := transcriptions (transcript r);
         currentInputText := currentInputText (transcript r) ++ fragment;
         currentOutputText := currentOutputText (transcript r);
         currentInputTextRef := currentInputTextRef (transcript r) ++ fragment;
         currentOutputTextRef := currentOutputTextRef (transcript r) |}%string
      r.
Proof. destruct r as [t p c]. reflexivity. Qed.

Lemma step_turnComplete (env : Env T) (r : Room T) :
  step env (Message turnCompleteSignal) r
  = set_transcript (turnComplete env (transcript r)) r.
Proof. destruct r as [t p c]. reflexivity. Qed.

Lemma turnComplete_commits (env : Env T) (t : Transcript) :
  turnComplete env t
  = {| transcriptions :=
         transcriptions t
         ++ committed env (currentInputTextRef t) (currentOutputTextRef t);
       currentInputText := ""; currentOutputText := "";
       currentInputTextRef := ""; currentOutputTextRef := "" |}.
Proof.
  unfold turnComplete, committed.
  destruct (currentInputTextRef t), (currentOutputTextRef t); cbn [truthy];
    rewrite <- ?app_assoc, ?app_nil_r; reflexivity.
Qed.

(** Output fragments accumulate in order. *)
Lemma run_outputFragments (frs : list (Env T * string)) (r : Room T) :
  run (prod_map Datatypes.id (fun f => Message (outputFragment f)) <$> frs) r
  = set_transcript
      {| transcriptions := transcriptions (transcript r);
         currentInputText := currentInputText (transcript r);
         currentOutputText :=
           currentOutputText (transcript r) ++ joined frs.*2;
         currentInputTextRef := currentInputTextRef (transcript r);
         currentOutputTextRef :=
           currentOutputTextRef (transcript r) ++ joined frs.*2 |}%string
      r.
Proof.
  revert r. induction frs as [|[env f] frs IH]; intros [t p c].
  - cbn. destruct t. cbn. unfold set_transcript. cbn.
    now rewrite !append_empty_r.
  - cbn [fmap list_fmap prod_map fst snd run Datatypes.id].
    rewrite step_outputFragment, IH. unfold set_transcript.
    cbn [transcript playback controller transcriptions currentInputText
         currentOutputText currentInputTextRef currentOutputTextRef].
    cbn [joined fold_right]. now rewrite !append_assoc.
Qed.
End Transcripts.

Section TurnCommit.
Context {T : Type} `{Timeline T}.

(** C2: a turn-complete signal appends the candidate entry, if the input
    accumulator is not empty, and then the examiner entry, if the output
    accumulator is not empty, and empties both accumulators.  Inputs A and
    B followed by output C commit the candidate entry AB and then the
    examiner entry C; output fragments alone commit one examiner entry and
    no candidate entry. *)
Theorem C2_turn_commit :
  (forall (env : Env T) (r : Room T),
     let t := transcript r in
     let t' := transcript (step env (Message turnCompleteSignal) r) in
     transcriptions t'
     = transcriptions t
       ++ committed env (currentInputTextRef t) (currentOutputTextRef t)
     /\ currentInputTextRef t' = "" /\ currentOutputTextRef t' = ""
     /\ currentInputText t' = "" /\ currentOutputText t' = "")
  /\ (forall envA envB envC envT : Env T,
        transcriptions (transcript
          (run [(envA, Message (inputFragment "A"));
                (envB, Message (inputFragment "B"));
                (envC, Message (outputFragment "C"));
                (envT, Message turnCompleteSignal)] initial))
        = [{| role := user; text := "AB"; timestamp := dateNow envT 0;
              avatar := Some "👤"; senderName := Some "Candidate" |};
           {| role := examiner; text := "C"; timestamp := dateNow envT 1;
              avatar := Some (icon (persona envT));
              senderName := Some (label (persona envT)) |}])
  /\ (forall (frs : list (Env T * string)) (envT : Env T),
        transcriptions (transcript
          (run ((prod_map Datatypes.id (fun f => Message (outputFragment f)) <$> frs)
                ++ [(envT, Message turnCompleteSignal)]) initial))
        = match joined frs.*2 with
          | "" => []
          | finalOutput =>
              [{| role := examiner; text := finalOutput; timestamp := dateNow envT 0;
                  avatar := Some (icon (persona envT));
                  senderName := Some (label (persona envT)) |}]
          end).
Proof.
  split; [|split].
  - intros env r t t'. subst t t'.
    rewrite step_turnComplete. destruct r as [t p c].
    cbn [set_transcript transcript]. rewrite turnComplete_commits.
    repeat split.
  - reflexivity.
  - intros frs envT.
    assert (Hrun : forall tr1 tr2 (r : Room T),
               run (tr1 ++ tr2) r = run tr2 (run tr1 r)).
    { induction tr1 as [|[e ev] tr1 IH]; intros tr2 r; [reflexivity|].
      cbn [app run]. apply IH. }
    rewrite Hrun, run_outputFragments. cbn [run].
    rewrite step_turnComplete.
    cbn [set_transcript transcript initial transcriptions currentInputTextRef
         currentOutputTextRef]. rewrite turnComplete_commits.
    cbn [transcriptions currentInputTextRef currentOutputTextRef app].
    change ("" ++ joined frs.*2)%string with (joined frs.*2).
    unfold committed. now destruct (joined frs.*2).
Qed.
End TurnCommit.

Section Interrupt.
Context {T : Type} `{Timeline T}.

Lemma interrupt_clears (p : Playback T) : interrupted_state p (interrupt p).
Proof.
  unfold interrupted_state, interrupt. cbn. repeat split. set_solver.
Qed.

Lemma step_interrupted (env : Env T) (r : Room T) :
  onmessage env interruptedSignal r = Done (set_playback (interrupt (playback r)) r).
Proof. destruct r as [[] p c]. reflexivity. Qed.

Lemma audioPayload_sources (env : Env T) (b : option string) (p p' : Playback T) :
  audioPayload env b p = Done p' -> sourcesRef p ⊆ sourcesRef p'.
Proof.
  unfold audioPayload. destruct b as [[|c rest]|]; try (intros [= <-]; set_solver).
  destruct (decoded _); intros [= <-]. cbn. set_solver.
Qed.

(** C4: when the handler of a message that signals an interruption runs to
    its end, every source node that was active has been stopped, the set
    of active nodes is empty, [nextStartTimeRef] is 0 and the
    examiner-speaking flag is off, however many nodes were active; the
    handler of the bare signal does run to its end. *)
Theorem C4_interrupt_clears (env : Env T) (message : Msg.LiveServerMessage)
    (r r' : Room T) :
  flag Msg.interrupted message = true ->
  onmessage env message r = Done r' ->
  interrupted_state (playback r) (playback r')
  /\ onmessage env interruptedSignal r
     = Done (set_playback (interrupt (playback r)) r).
Proof.
  intros Hflag Hdone. split; [|apply step_interrupted].
  unfold onmessage in Hdone. rewrite Hflag in Hdone.
  destruct (base64Audio_of message) as [b|]; [|discriminate].
  destruct (audioPayload env b (playback r)) as [p|] eqn:Hp; [|discriminate].
  apply audioPayload_sources in Hp.
  injection Hdone as <-.
  destruct (flag Msg.turnComplete message);
    cbn [set_playback set_transcript playback];
    destruct (interrupt_clears p) as (Hs & He & Hn & Hf);
    repeat split; try assumption; intros source Hsrc; apply Hs; set_solver.
Qed.
End Interrupt.

Lemma C4_interrupt_clears_witness :
  let r := run [(envAt 0, Message (audioMessage "AAA="));
                (envAt 0, Message (audioMessage "AAA="))] initial in
  let r' := set_playback (interrupt (playback r)) r in
  sourcesRef (playback r) = {[0%nat; 1%nat]}
  /\ interrupted_state (playback r) (playback r')
  /\ onmessage (envAt 0) interruptedSignal r
     = Done (set_playback (interrupt (playback r)) r).
Proof.
  intros r r'. split; [reflexivity|].
  refine (C4_interrupt_clears (envAt 0) interruptedSignal r r' _ _); reflexivity.
Defined.

Section Fragments.
Context {T : Type} `{Timeline T}.

Lemma onmessage_done_transcript (env : Env T) (message : Msg.LiveServerMessage)
    (r r' : Room T) :
  onmessage env message r = Done r' ->
  transcript r'
  = let t := transcription message (transcript r) in
    if flag Msg.turnComplete message then turnComplete env t else t.
Proof.
  unfold onmessage. intros Hdone.
  destruct (base64Audio_of message) as [b|]; [|discriminate].
  destruct (audioPayload env b (playback r)) as [p|]; [|discriminate].
  injection Hdone as <-. destruct r as [t p0 c].
  destruct (flag Msg.turnComplete message), (flag Msg.interrupted message);
    reflexivity.
Qed.

(** C10 (amended): when the handler of a message that carries an output
    fragment and an input fragment runs to its end, the room it leaves has
    the output fragment appended to the examiner accumulator and the input
    fragment nowhere: without turn-complete the candidate accumulator and the
    log are as before; with it, the entries committed are those of the
    candidate accumulator as it was and of the examiner accumulator with the
    output fragment, and the accumulators are empty.  The handler ends as it
    does on the message without the input fragment. *)
Theorem C10_input_fragment_dropped (env : Env T) (message : Msg.LiveServerMessage)
    (sc : Msg.LiveServerContent) (output input : Msg.Transcription)
    (r r' : Room T) :
  Msg.serverContent message = Some sc ->
  Msg.outputTranscription sc = Some output ->
  Msg.inputTranscription sc = Some input ->
  onmessage env message r = Done r' ->
  let t := transcript r in
  let t' := transcript r' in
  let appended := js_append (currentOutputTextRef t) (Msg.text output) in
  (Msg.turnComplete sc = false ->
     currentOutputTextRef t' = appended
     /\ currentOutputText t' = js_append (currentOutputText t) (Msg.text output)
     /\ currentInputTextRef t' = currentInputTextRef t
     /\ currentInputText t' = currentInputText t
     /\ transcriptions t' = transcriptions t)
  /\ (Msg.turnComplete sc = true ->
       transcriptions t'
       = transcriptions t ++ committed env (currentInputTextRef t) appended
       /\ currentOutputTextRef t' = "" /\ currentOutputText t' = ""
       /\ currentInputTextRef t' = "" /\ currentInputText t' = "")
  /\ onmessage env (withoutInput message) r = Done r'.
Proof.
  intros Hsc Hout Hin Hdone t t' appended. subst t t' appended.
  assert (Ht : forall t, transcription message t
                         = transcription (withoutInput message) t).
  { intros t. unfold transcription, withoutInput.
    cbn [Msg.serverContent]. rewrite Hsc. cbn. now rewrite Hout. }
  rewrite (onmessage_done_transcript env message r r' Hdone). cbv zeta.
  assert (Hflag : flag Msg.turnComplete message = Msg.turnComplete sc)
    by (unfold flag; now rewrite Hsc).
  rewrite Hflag.
  assert (Hfrag : transcription message (transcript r)
                  = {| transcriptions := transcriptions (transcript r);
                       currentInputText := currentInputText (transcript r);
                       currentOutputText :=
                         js_append (currentOutputText (transcript r)) (Msg.text output);
                       currentInputTextRef := currentInputTextRef (transcript r);
                       currentOutputTextRef :=
                         js_append (currentOutputTextRef (transcript r))
                                   (Msg.text output) |}).
  { unfold transcription. rewrite Hsc. cbn. now rewrite Hout. }
  split; [|split].
  - intros ->. rewrite Hfrag. repeat split.
  - intros ->. rewrite turnComplete_commits, Hfrag. repeat split.
  - rewrite <- Hdone.
    assert (Hb : base64Audio_of (withoutInput message) = base64Audio_of message)
      by (unfold base64Audio_of, withoutInput; cbn [Msg.serverContent];
          now rewrite Hsc).
    assert (Hf : forall f, (f = Msg.turnComplete \/ f = Msg.interrupted) ->
                           flag f (withoutInput message) = flag f message)
      by (intros f [-> | ->]; unfold flag, withoutInput; cbn [Msg.serverContent];
          now rewrite Hsc).
    unfold onmessage. rewrite Hb, !Hf by auto.
    destruct (base64Audio_of message) as [b|]; [|reflexivity].
    destruct (audioPayload env b (playback r)) as [p|]; [|reflexivity].
    now rewrite <- Ht.
Qed.
End Fragments.

Lemma C10_input_fragment_dropped_witness :
  let t := transcript (@initial Qc _) in
  let t' := transcript (step (envAt 0) (Message bothFragments) initial) in
  let appended := js_append (currentOutputTextRef t) (Some "Define") in
  (false = false ->
     currentOutputTextRef t' = appended
     /\ currentOutputText t' = js_append (currentOutputText t) (Some "Define")
     /\ currentInputTextRef t' = currentInputTextRef t
     /\ currentInputText t' = currentInputText t
     /\ transcriptions t' = transcriptions t)
  /\ (false = true ->
       transcriptions t'
       = transcriptions t ++ committed (envAt 0) (currentInputTextRef t) appended
       /\ currentOutputTextRef t' = "" /\ currentOutputText t' = ""
       /\ currentInputTextRef t' = "" /\ currentInputText t' = "")
  /\ onmessage (envAt 0) (withoutInput bothFragments) initial
     = Done (step (envAt 0) (Message bothFragments) initial).
Proof.
  refine (C10_input_fragment_dropped (envAt 0) bothFragments
            {| Msg.modelTurn := None;
               Msg.outputTranscription := Some {| Msg.text := Some "Define" |};
               Msg.inputTranscription := Some {| Msg.text := Some "Sir" |};
               Msg.turnComplete := false; Msg.interrupted := false |}
            {| Msg.text := Some "Define" |} {| Msg.text := Some "Sir" |}
            initial (step (envAt 0) (Message bothFragments) initial)
            _ _ _ _); reflexivity.
Defined.

(** The same step, evaluated: the examiner accumulator holds the output
    fragment and the candidate accumulator is empty. *)
Example both_fragments_run :
  let t' := transcript (step (envAt 0) (Message bothFragments) (@initial Qc _)) in
  currentOutputTextRef t' = "Define" /\ currentInputTextRef t' = "".
Proof. split; reflexivity. Qed.

(** C10, as stated, fails for a message whose handler throws before the
    fragments are looked at: with both fragments and a model turn without
    [parts], or an audio payload that is not base64, neither fragment is
    appended. *)
Lemma C10_throw_before_fragments :
  let t := transcript (@initial Qc _) in
  (onmessage (envAt 0) bothFragmentsNoParts initial = Rejected TypeError initial
   /\ currentOutputTextRef
        (transcript (step (envAt 0) (Message bothFragmentsNoParts) initial))
      <> js_append (currentOutputTextRef t) (Some "Define"))
  /\ (exists r', onmessage (envAt 0) bothFragmentsGarbled initial
                 = Rejected InvalidCharacterError r')
  /\ currentOutputTextRef
       (transcript (step (envAt 0) (Message bothFragmentsGarbled) initial))
     <> js_append (currentOutputTextRef t) (Some "Define").
Proof.
  split; [split; [reflexivity | discriminate]|].
  split; [eexists; reflexivity | discriminate].
Qed.

(** ** The closing guard *)

Section ClosingGuard.
Context {T : Type} `{Timeline T}.

Lemma onaudioprocess_closing (s : Session) (inputData : list number) (c : Controller) :
  isClosingRef c = true -> onaudioprocess s inputData c = c.
Proof. unfold onaudioprocess. now intros ->. Qed.

Lemma frameTick_closing (env : Env T) (s : Session) (c : Controller) :
  isClosingRef c = true -> frameTick env s c = c.
Proof.
  unfold frameTick. intros ->.
  now rewrite andb_false_r.
Qed.

Lemma sendPending_closing (c : Controller) :
  isClosingRef c = true ->
  outbox (sendPending c) = outbox c /\ isClosingRef (sendPending c) = true.
Proof.
  unfold sendPending. intros Hc.
  destruct (pending c) as [|[s media] rest]; [now split|].
  cbn. now rewrite Hc.
Qed.

Lemma onmessage_controller (env : Env T) (message : Msg.LiveServerMessage) (r : Room T) :
  controller (final (onmessage env message r)) = controller r.
Proof.
  unfold onmessage.
  destruct (base64Audio_of message) as [b|]; [|reflexivity].
  destruct (audioPayload env b (playback r)) as [p|]; [|reflexivity].
  destruct (flag Msg.turnComplete message), (flag Msg.interrupted message);
    reflexivity.
Qed.

Lemma stopActiveSession_sealed (r : Room T) :
  isClosingRef (controller r) = true ->
  sealed (controller r) (controller (stopActiveSession r)).
Proof.
  intros Hc. unfold stopActiveSession, sealed.
  destruct (sessionRef (controller r)), (frameIntervalRef (controller r)); cbn;
    destruct (frameIntervalRef (controller r)); cbn; auto.
Qed.

Lemma sealed_refl (c : Controller) : isClosingRef c = true -> sealed c c.
Proof. now split. Qed.

Lemma sealed_trans (a b c : Controller) : sealed a b -> sealed b c -> sealed a c.
Proof. intros [Hab _] [Hbc Hc]. split; congruence. Qed.

Lemma startSession_sealed (env : Env T) (r : Room T) :
  isClosingRef (controller r) = true ->
  sealed (controller r) (controller (startSession env r)).
Proof.
  intros Hc. unfold startSession.
  set (r1 := set_controller (set_errorMessage None (controller r)) r).
  assert (H1 : sealed (controller r) (controller r1)) by now split.
  pose proof (stopActiveSession_sealed r1 (proj2 H1)) as H2.
  pose proof (sealed_trans _ _ _ H1 H2) as [Ho Hcl]. clear H1 H2.
  destruct (streamRef (controller (stopActiveSession r1))),
    (getUserMedia env), (connectResult env); cbn; now split.
Qed.

Lemma teardown_sealed (r : Room T) :
  outbox (controller (teardown r)) = outbox (controller r)
  /\ isClosingRef (controller (teardown r)) = true.
Proof.
  unfold teardown.
  set (r1 := set_controller (set_isClosingRef true (controller r)) r).
  destruct (stopActiveSession_sealed r1 eq_refl) as [Ho Hcl].
  destruct (streamRef (controller (stopActiveSession r1))); cbn; now split.
Qed.

Lemma fire_sealed (env : Env T) (i : nat) (r : Room T) :
  isClosingRef (controller r) = true ->
  sealed (controller r) (controller (fire env i r)).
Proof.
  intros Hc. unfold fire.
  destruct (find _ _) as [t|]; [|now split].
  destruct (due t <=? clock (controller r))%N; [|now split].
  set (r1 := set_controller _ r).
  assert (H1 : sealed (controller r) (controller r1)) by now split.
  destruct (callback t) as [| |s].
  - eapply sealed_trans; [exact H1|]. apply startSession_sealed, H1.
  - now split.
  - cbn [set_controller controller]. rewrite frameTick_closing by apply H1.
    exact H1.
Qed.

Lemma step_sealed (env : Env T) (ev : Event) (r : Room T) :
  ev <> Mount ->
  isClosingRef (controller r) = true ->
  sealed (controller r) (controller (step env ev r)).
Proof.
  intros Hev Hc. destruct ev; cbn [step set_controller set_playback controller].
  - rewrite onmessage_controller. now split.
  - now split.
  - rewrite onaudioprocess_closing by assumption. now split.
  - now apply sendPending_closing.
  - now split.
  - now split.
  - now split.
  - congruence.
  - apply teardown_sealed.
  - now split.
  - now apply fire_sealed.
Qed.

Lemma run_sealed (trace : list (Env T * Event)) (r : Room T) :
  Forall (fun step => step.2 <> Mount) trace ->
  isClosingRef (controller r) = true ->
  sealed (controller r) (controller (run trace r)).
Proof.
  intros Htrace. revert r.
  induction Htrace as [|[env ev] trace Hev _ IH]; intros r Hc.
  - now split.
  - cbn [run]. pose proof (step_sealed env ev r Hev Hc) as Hs.
    eapply sealed_trans; [exact Hs|]. apply IH, Hs.
Qed.

(** C3: once [isClosingRef] is set, the audio callback and the frame tick
    leave the component as it is, a queued send that runs now sends
    nothing, and along any run of events in which the effect is not
    mounted again the outbox stays as it was. *)
Theorem C3_closing_guard (r : Room T) :
  isClosingRef (controller r) = true ->
  (forall s inputData, onaudioprocess s inputData (controller r) = controller r)
  /\ (forall (env : Env T) s, frameTick env s (controller r) = controller r)
  /\ outbox (sendPending (controller r)) = outbox (controller r)
  /\ forall trace : list (Env T * Event),
       Forall (fun step => step.2 <> Mount) trace ->
       outbox (controller (run trace r)) = outbox (controller r)
       /\ isClosingRef (controller (run trace r)) = true.
Proof.
  intros Hc. split; [|split; [|split]].
  - intros s inputData. now apply onaudioprocess_closing.
  - intros env s. now apply frameTick_closing.
  - now apply sendPending_closing.
  - intros trace Htrace. now apply run_sealed.
Qed.
End ClosingGuard.

Lemma C3_closing_guard_witness :
  length (pending (controller tornDown)) = 1%nat
  /\ outbox (controller (run [(envAt 0, SendPending);
                              (envAt 0, AudioProcess 1%nat [Num (1 # 2)]);
                              (envAt 0, Elapse 3000); (envAt 0, Fire 1%nat);
                              (envAt 0, SendPending)] tornDown))
     = [].
Proof.
  split; [reflexivity|].
  refine (proj1 (proj2 (proj2 (proj2 (C3_closing_guard tornDown eq_refl))) _ _)).
  repeat constructor; discriminate.
Defined.

(** The guard at work while the session is live: the queued block is sent. *)
Example live_block_is_sent :
  outbox (controller
    (run [(envAt 0, Mount); (envAt 0, Open 1%nat);
          (envAt 0, AudioProcess 1%nat [Num (1 # 2)]);
          (envAt 0, SendPending)] initial))
  = [(1%nat, {| data := Some "AEA="; mimeType := "audio/pcm;rate=16000" |})].
Proof. reflexivity. Qed.

(** The frame interval at work while the session is live: three seconds
    after [onopen] a frame is queued and sent. *)
Example live_frame_is_sent :
  outbox (controller
    (run [(envAt 0, Elapse 3000); (envAt 0, Fire 1%nat); (envAt 0, SendPending)] live))
  = [(1%nat, {| data := Some "AAAA"; mimeType := "image/jpeg" |})].
Proof. reflexivity. Qed.

(** ** Retry after a channel error *)

(** *** The timer identifiers stay in step with the count *)

Lemma ids_below_mono (made made' : nat) (tms : list Timer) :
  (made <= made')%nat -> ids_below made tms -> ids_below made' tms.
Proof.
  intros Hm Hwf. eapply Forall_impl; [exact Hwf|]. intros t Ht. cbn in *. lia.
Qed.

Lemma ids_below_filter (made : nat) (P : Timer -> Prop) `{forall t, Decision (P t)}
    (tms : list Timer) :
  ids_below made tms -> ids_below made (filter P tms).
Proof.
  intros Hwf. apply Forall_forall. intros t [_ Ht]%list_elem_of_filter.
  unfold ids_below in Hwf. rewrite Forall_forall in Hwf. now apply Hwf.
Qed.

Lemma ids_below_snoc (made : nat) (tms : list Timer) (t : Timer) :
  ids_below made tms -> (timerId t <= made)%nat -> ids_below made (tms ++ [t]).
Proof.
  intros Hwf Ht. apply Forall_app. split; [exact Hwf | now constructor].
Qed.

Lemma find_ids_below (made i : nat) (tms : list Timer) (t : Timer) :
  ids_below made tms ->
  find (fun t => bool_decide (timerId t = i)) tms = Some t ->
  (i <= made)%nat /\ timerId t = i.
Proof.
  intros Hwf Hfind. apply find_some in Hfind as [Hin Hid].
  apply bool_decide_eq_true in Hid.
  unfold ids_below in Hwf. rewrite Forall_forall in Hwf.
  apply list_elem_of_In, Hwf in Hin. lia.
Qed.

Section TimerIds.
Context {T : Type} `{Timeline T}.

Lemma addTimer_wf (cb : TimerCallback) (delay : N) (period : option N) (c : Controller) :
  timers_wf c -> timers_wf (addTimer cb delay period c).
Proof.
  intros [Hwf Hframe].
  destruct c as [act ana err ses str frm cls clk tms made pnd obx cns cld trk sts].
  cbn in *. split; cbn.
  - apply ids_below_snoc; [eapply ids_below_mono; [|exact Hwf]; lia | cbn; lia].
  - intros i Hi. specialize (Hframe i Hi). lia.
Qed.

Lemma stopActiveSession_wf (r : Room T) :
  timers_wf (controller r) -> timers_wf (controller (stopActiveSession r)).
Proof.
  intros [Hwf Hframe]. open_room r. cbn in *. unfold stopActiveSession. cbn.
  destruct ses, frm; cbn; (split; cbn; [|discriminate || assumption]);
    try assumption; now apply ids_below_filter.
Qed.

Lemma startSession_wf (env : Env T) (r : Room T) :
  timers_wf (controller r) -> timers_wf (controller (startSession env r)).
Proof.
  intros Hwf. unfold startSession. cbv zeta.
  assert (H1 : timers_wf (controller
                 (stopActiveSession
                    (set_controller (set_errorMessage None (controller r)) r)))).
  { apply stopActiveSession_wf. open_room r. exact Hwf. }
  remember (stopActiveSession _) as r2 eqn:E. clear E Hwf r.
  open_room r2. cbn in H1 |- *.
  destruct str, (getUserMedia env), (connectResult env); cbn; exact H1.
Qed.

Lemma frameTick_wf (env : Env T) (s : Session) (c : Controller) :
  timers_wf c -> timers_wf (frameTick env s c).
Proof.
  intros Hwf. unfold frameTick.
  destruct (_ && _); [|exact Hwf].
  destruct (context2d env); [|exact Hwf].
  pose proof (addTimer_wf CbAnalyzingOff 200 None (set_isAnalyzing true c)) as Ha.
  destruct c as [act ana err ses str frm cls clk tms made pnd obx cns cld trk sts].
  cbn in *. exact (Ha Hwf).
Qed.

Lemma step_timers_wf (env : Env T) (ev : Event) (r : Room T) :
  timers_wf (controller r) -> timers_wf (controller (step env ev r)).
Proof.
  intros Hwf. destruct ev; cbn [step set_controller set_playback controller].
  - now rewrite onmessage_controller.
  - exact Hwf.
  - unfold onaudioprocess. destruct (_ || _); [exact Hwf|].
    open_room r. exact Hwf.
  - unfold sendPending. destruct (pending (controller r)) as [|[s0 media] rest] eqn:E;
      [exact Hwf|]. open_room r. cbn in *. destruct cls; exact Hwf.
  - unfold onopen. cbv zeta.
    pose proof (addTimer_wf (CbFrame s) 3000 (Some 3000)
                  (set_isActive true
                     (set_statusLog (statusLog (controller r) ++ [ACTIVE]) (controller r))))
      as Ha.
    open_room r. cbn in *. destruct (Ha Hwf) as [Ht _].
    split; [exact Ht | cbn; intros i [= <-]; lia].
  - unfold onerror, setTimeout.
    pose proof (addTimer_wf CbStartSession 1500 None
                  (set_errorMessage (Some "System error. Restarting...") (controller r)))
      as Ha.
    open_room r. exact (Ha Hwf).
  - open_room r. exact Hwf.
  - unfold mount. apply startSession_wf. open_room r. exact Hwf.
  - unfold teardown. cbv zeta.
    assert (H1 : timers_wf (controller
                   (stopActiveSession
                      (set_controller (set_isClosingRef true (controller r)) r)))).
    { apply stopActiveSession_wf. open_room r. exact Hwf. }
    remember (stopActiveSession _) as r2 eqn:E. clear E Hwf r.
    open_room r2. cbn in H1 |- *. destruct str; cbn; exact H1.
  - open_room r. exact Hwf.
  - unfold fire. cbv zeta.
    destruct (find _ _) as [t|] eqn:Hfind; [|exact Hwf].
    destruct (due t <=? clock (controller r))%N; [|exact Hwf].
    destruct Hwf as [Hwf Hframe].
    destruct (find_ids_below _ _ _ _ Hwf Hfind) as [Hi Hid].
    assert (H1 : timers_wf
                   (set_timers
                      (filter (fun t => timerId t ≠ i) (timers (controller r)) ++
                       match every t with
                       | Some period =>
                           [{| timerId := i; due := due t + period;
                               callback := callback t; every := every t |}]
                       | None => []
                       end) (controller r))).
    { open_room r. cbn in *. split; [|exact Hframe]. cbn.
      apply Forall_app. split; [now apply ids_below_filter|].
      destruct (every t); repeat constructor. exact Hi. }
    destruct (callback t).
    + apply startSession_wf. exact H1.
    + cbn [controller set_controller]. 
      remember (set_timers _ _) as c2 eqn:E. clear E.
      destruct c2. exact H1.
    + cbn [controller set_controller]. now apply frameTick_wf.
Qed.

(** The timers of every state the component reaches are well formed. *)
Lemma run_timers_wf (trace : list (Env T * Event)) (r : Room T) :
  timers_wf (controller r) -> timers_wf (controller (run trace r)).
Proof.
  revert r. induction trace as [|[env ev] trace IH]; intros r Hwf; [exact Hwf|].
  cbn [run]. now apply IH, step_timers_wf.
Qed.

Lemma reachable_timers_wf (trace : list (Env T * Event)) :
  timers_wf (controller (run trace initial)).
Proof. apply run_timers_wf. split; [constructor | discriminate]. Qed.
End TimerIds.

Section Retry.
Context {T : Type} `{Timeline T}.

Lemma find_fresh (made : nat) (t : Timer) (others : list Timer) :
  Forall (fun t' => timerId t' <= made)%nat others ->
  timerId t = S made ->
  find (fun t' => bool_decide (timerId t' = S made)) (others ++ [t]) = Some t.
Proof.
  intros Hwf Hid. induction Hwf as [|t' others Ht' _ IH]; cbn.
  - now rewrite bool_decide_eq_true_2.
  - rewrite bool_decide_eq_false_2 by lia. exact IH.
Qed.

(** The retry timer is not due before 1.5 seconds have passed. *)
Lemma retry_not_before (env : Env T) (r : Room T) (ms : N) :
  timers_wf (controller r) ->
  ms < 1500 ->
  let r1 := step env (Elapse ms) (step env Error r) in
  fire env (S (timersMade (controller r))) r1 = r1.
Proof.
  intros [Hwf _] Hms r1. subst r1. open_room r.
  cbn in Hwf |- *. unfold fire. cbn.
  rewrite (find_fresh made {| timerId := S made; due := clk + 1500;
                              callback := CbStartSession; every := None |}
             tms Hwf eq_refl).
  cbn [due]. destruct (N.leb_spec (clk + 1500) (clk + ms)); [lia | reflexivity].
Qed.

(** After [onerror], the teardown and 1.5 seconds, the retry timer fires
    and [startSession] connects. *)
Lemma retry_fires (env : Env T) (r : Room T) :
  timers_wf (controller r) ->
  is_Some (getUserMedia env) ->
  let r4 := run [(env, Error); (env, Teardown); (env, Elapse 1500);
                 (env, Fire (S (timersMade (controller r))))] r in
  connects (controller r4) = connects (controller r) ++ [voiceName (persona env)]
  /\ isClosingRef (controller r4) = true.
Proof.
  intros [Hwf Hframe] [stream Hmedia] r4. subst r4. open_room r.
  cbn in Hwf, Hframe. unfold ids_below in Hwf.
  set (retry := {| timerId := S made; due := clk + 1500;
                   callback := CbStartSession; every := None |}).
  assert (Hfind : forall others,
             Forall (fun t => timerId t <= made)%nat others ->
             find (fun t => bool_decide (timerId t = S made)) (others ++ [retry])
             = Some retry)
    by (intros others Ho; exact (find_fresh made retry others Ho eq_refl)).
  assert (Hdue : (clk + 1500 <=? clk + 1500)%N = true) by (apply N.leb_le; lia).
  cbn [run step controller set_controller].
  unfold teardown, stopActiveSession, onerror, setTimeout, addTimer.
  cbn. fold retry.
  destruct ses as [s|], frm as [i|], str as [st|]; cbn; unfold fire; cbn;
    unfold clearInterval; cbn;
    rewrite ?filter_app, ?(filter_cons_True _ retry)
      by (pose proof (Hframe _ eq_refl); cbn; lia);
    rewrite ?filter_nil;
    (rewrite Hfind;
     [| try assumption; now apply ids_below_filter]);
    cbn [due retry]; rewrite Hdue; cbn [callback retry every];
    unfold startSession, stopActiveSession; cbn; rewrite Hmedia;
    destruct (connectResult env); cbn; now split.
Qed.

(** C8, on the code: the channel error shows the message and sets a retry
    1.5 seconds ahead, which does not fire earlier; but the teardown does
    not clear it, so once the delay has passed [startSession] runs and
    connects again although the component is closing. *)
Theorem C8_retry_after_teardown (env : Env T) (r : Room T) :
  timers_wf (controller r) ->
  is_Some (getUserMedia env) ->
  let i := S (timersMade (controller r)) in
  let r1 := step env Error r in
  errorMessage (controller r1) = Some "System error. Restarting..."
  /\ retryTimer (controller r) ∈ timers (controller r1)
  /\ (forall ms, ms < 1500 ->
        fire env i (step env (Elapse ms) r1) = step env (Elapse ms) r1)
  /\ let r4 := run [(env, Error); (env, Teardown); (env, Elapse 1500);
                    (env, Fire i)] r in
     connects (controller r4) = connects (controller r) ++ [voiceName (persona env)]
     /\ isClosingRef (controller r4) = true.
Proof.
  intros Hwf Hmedia i r1. split; [|split; [|split]].
  - subst r1. open_room r. reflexivity.
  - subst r1. open_room r. cbn. set_solver.
  - intros ms Hms. now apply retry_not_before.
  - exact (retry_fires env r Hwf Hmedia).
Qed.
End Retry.

Lemma initial_timers_wf : timers_wf (controller (@initial Qc _)).
Proof. split; [constructor | discriminate]. Qed.

Lemma C8_retry_after_teardown_witness :
  let r4 := run [(envAt 0, Error); (envAt 0, Teardown);
                 (envAt 0, Elapse 1500);
                 (envAt 0, Fire (S (timersMade (controller live))))] live in
  connects (controller r4)
  = connects (controller live) ++ [voiceName (persona (envAt 0))]
  /\ isClosingRef (controller r4) = true.
Proof.
  refine (proj2 (proj2 (proj2 (C8_retry_after_teardown (envAt 0) live _ _)))).
  - unfold timers_wf. vm_compute.
    split; [repeat constructor | intros i [= <-]; repeat constructor].
  - now exists 1%nat.
Defined.

(** The same run, evaluated: the session of the mount, then the one the
    retry opened after the teardown. *)
Example retry_after_teardown_run :
  let r4 := run [(envAt 0, Error); (envAt 0, Teardown);
                 (envAt 0, Elapse 1500); (envAt 0, Fire 2%nat)] live in
  connects (controller live) = ["Charon"]
  /\ connects (controller r4) = ["Charon"; "Charon"]
  /\ isClosingRef (controller r4) = true
  /\ sessionRef (controller r4) = Some 1%nat.
Proof. vm_compute. repeat split. Qed.

(** ** The evaluation report *)

Example JSON_parse_report :
  JSON_parse (quoted "{ 'grade': 'A+', 'score': 91.5, 'strengths': ['Optics', 'Units'], 'done': true }")
  = Some (JObject [(units "grade", JString (units "A+"));
                   (units "score", JNumber "91.5");
                   (units "strengths", JArray [JString (units "Optics"); JString (units "Units")]);
                   (units "done", JBool true)]).
Proof. reflexivity. Qed.

Example JSON_parse_malformed :
  JSON_parse (quoted "{ 'grade': 'A+', ") = None
  /\ JSON_parse "" = None
  /\ JSON_parse (quoted "{'grade': A}") = None
  /\ JSON_parse "[1, 2,]" = None.
Proof. repeat split. Qed.

(** When the request fails, or the text of the response is not JSON, the
    fallback report is stored, which has the six required fields, and the
    report is no longer being generated. *)
Lemma fallback_on_failure (reply : Reply) (a : App) :
  reply = Failure
  \/ (exists responseText,
        reply = Response (Some responseText)
        /\ truthy (Some responseText) = true
        /\ JSON_parse responseText = None) ->
  generateReport reply a = fallbackState
  /\ hasRequiredFields fallbackReport = true.
Proof.
  intros [-> | (responseText & -> & Ht & Hparse)]; split; try reflexivity.
  unfold generateReport. rewrite Ht.
  change (default "" (Some responseText)) with responseText.
  now rewrite Hparse.
Qed.

Example fallback_on_malformed :
  generateReport (Response (Some (quoted "{ 'grade': 'A+', ")))
    {| isGeneratingReport := true; examStats := None |}
  = fallbackState.
Proof.
  apply fallback_on_failure. right.
  exists (quoted "{ 'grade': 'A+', "). repeat split.
Qed.

(** The fallback report goes through the report view. *)
Example fallback_is_rendered :
  reportLists fallbackReport
  = Ok ([JString (units "Punctuality"); JString (units "Basic interaction")],
        [JString (units "Technical details unclear")],
        [JString (units "General Physics")]).
Proof. reflexivity. Qed.

Lemma Json_get_absent (ms : list (list N * Json)) (name : string) :
  hasField (JObject ms) name = false -> Json_get (JObject ms) name = None.
Proof.
  unfold hasField, Json_get. intros Hno.
  apply bool_decide_eq_false in Hno.
  destruct (find _ ms) as [[k v]|] eqn:Hfind; [|reflexivity].
  apply find_some in Hfind as [Hin Hk]. apply bool_decide_eq_true in Hk.
  cbn in Hk. subst k. exfalso. apply Hno.
  apply list_elem_of_fmap. exists (units name, v). split; [reflexivity|].
  now apply list_elem_of_In.
Qed.

Lemma reportLists_absent (ms : list (list N * Json)) (name : string) :
  name ∈ ["strengths"; "weaknesses"; "topicsCovered"] ->
  hasField (JObject ms) name = false ->
  reportLists (JObject ms) = Throw TypeError.
Proof.
  intros Hname Hno. apply Json_get_absent in Hno. unfold reportLists.
  repeat (apply elem_of_cons in Hname as [->|Hname]);
    [| | |now apply elem_of_nil in Hname].
  - now rewrite Hno.
  - rewrite Hno.
    destruct (Json_get (JObject ms) "strengths") as [[]|]; reflexivity.
  - rewrite Hno.
    destruct (Json_get (JObject ms) "strengths") as [[]|]; try reflexivity.
    destruct (Json_get (JObject ms) "weaknesses") as [[]|]; reflexivity.
Qed.

(** C9: the code does not do what the claim says for a response with
    missing fields.  Whatever the text of a response parses to is stored as
    it is, [{}] standing for an absent or empty text: the fields are not
    checked, so a value without the required fields is never replaced by the
    fallback report, and an object without one of the three lists makes the
    report view throw a [TypeError]. *)
Theorem C9_report_unchecked (responseText : option string) (v : Json) (a : App) :
  JSON_parse (if truthy responseText then default "" responseText else "{}") = Some v ->
  let a' := generateReport (Response responseText) a in
  isGeneratingReport a' = false
  /\ examStats a' = setExamStats v
  /\ (hasRequiredFields v = false -> examStats a' <> Some fallbackReport)
  /\ (forall ms name,
        v = JObject ms ->
        name ∈ ["strengths"; "weaknesses"; "topicsCovered"] ->
        hasField v name = false ->
        examStats a' = Some v /\ reportLists v = Throw TypeError).
Proof.
  intros Hparse a'. subst a'. unfold generateReport. cbn [isGeneratingReport examStats].
  rewrite Hparse. split; [reflexivity|]. split; [reflexivity|]. split.
  - intros Hmissing Hfallback.
    assert (v = fallbackReport) as ->
      by (destruct v; cbn in Hfallback; congruence).
    discriminate.
  - intros ms name -> Hname Hno. split; [reflexivity|].
    now apply (reportLists_absent ms name).
Qed.

Lemma C9_report_unchecked_witness :
  let a' := generateReport (Response None)
              {| isGeneratingReport := true; examStats := None |} in
  isGeneratingReport a' = false
  /\ examStats a' = setExamStats (JObject [])
  /\ (hasRequiredFields (JObject []) = false -> examStats a' <> Some fallbackReport)
  /\ (forall ms name,
        JObject [] = JObject ms ->
        name ∈ ["strengths"; "weaknesses"; "topicsCovered"] ->
        hasField (JObject []) name = false ->
        examStats a' = Some (JObject []) /\ reportLists (JObject []) = Throw TypeError).
Proof.
  refine (C9_report_unchecked None (JObject [])
            {| isGeneratingReport := true; examStats := None |} _).
  reflexivity.
Defined.

(** The failing inputs, evaluated: a response without text and a response
    whose object has only a grade are stored as parsed, not replaced by the
    fallback report, and the report view throws on both. *)
Example missing_fields_run :
  let a := {| isGeneratingReport := true; examStats := None |} in
  generateReport (Response None) a
  = {| isGeneratingReport := false; examStats := Some (JObject []) |}
  /\ generateReport (Response (Some (quoted "{'grade': 'A'}"))) a
     = {| isGeneratingReport := false;
          examStats := Some (JObject [(units "grade", JString (units "A"))]) |}
  /\ hasRequiredFields (JObject []) = false
  /\ hasRequiredFields (JObject [(units "grade", JString (units "A"))]) = false
  /\ generateReport (Response None) a <> fallbackState
  /\ reportLists (JObject []) = Throw TypeError
  /\ reportLists (JObject [(units "grade", JString (units "A"))]) = Throw TypeError.
Proof. repeat split. discriminate. Qed.

(** A repeated key keeps its place and its last value. *)
Example JSON_parse_repeated_key :
  JSON_parse (quoted "{'a': 1, 'b': 2, 'a': 3}")
  = Some (JObject [(units "a", JNumber "3"); (units "b", JNumber "2")]).
Proof. reflexivity. Qed.

(** * Further properties *)

(** ** More on the codec *)

Lemma encode_groups (bytes : list byte) :
  list_ascii_of_string (encode bytes) = b64_groups (Byte.to_N <$> bytes).
Proof.
  unfold encode.
  rewrite (binary_string bytes EmptyString : _ = string_of_list_ascii _).
  unfold btoa. rewrite !list_ascii_of_string_of_list_ascii.
  f_equal. rewrite <- list_fmap_compose.
  apply list_fmap_ext. intros _ b _. cbn. unfold fromCharCode.
  rewrite ascii_of_byte_via_N.
  apply N_ascii_embedding. pose proof (Byte.to_N_bounded b). lia.
Qed.

Lemma bytes_of_codes (bytes : list byte) :
  charCodeAt <$> (ascii_of_N <$> (Byte.to_N <$> bytes)) = bytes.
Proof.
  rewrite <- !list_fmap_compose.
  transitivity (Datatypes.id <$> bytes); [|apply list_fmap_id].
  apply list_fmap_ext. intros _ b _. cbn.
  unfold charCodeAt. now rewrite <- ascii_of_byte_via_N, byte_of_ascii_of_byte.
Qed.

(** [atob] only sees the characters that are not white space. *)
Lemma atob_filtered (s : string) (codes : list N) :
  filter (fun c => is_ascii_whitespace c = false) (list_ascii_of_string s)
  = b64_groups codes ->
  Forall (fun a => a < 256) codes ->
  atob s = Some (string_of_list_ascii (ascii_of_N <$> codes)).
Proof.
  intros Hs Hcodes. unfold atob. rewrite Hs.
  pose proof (b64_sextets_range codes Hcodes) as Hsx.
  rewrite b64_groups_length. cbn [N.eqb].
  rewrite b64_groups_split, strip_padding_app.
  2:{ apply Forall_fmap. eapply Forall_impl; [exact Hsx|].
      intros x Hx. now apply b64_char_not_pad. }
  2:{ apply b64_padding_cases. }
  rewrite length_fmap.
  destruct (N.eqb_spec (N.of_nat (length (b64_sextets codes)) mod 4) 1) as [E|_];
    [now apply b64_sextets_length in E|].
  rewrite mapM_b64_index by assumption. cbn.
  now rewrite b64_bytes_sextets.
Qed.

Lemma decode_filtered (s : string) (bytes : list byte) :
  filter (fun c => is_ascii_whitespace c = false) (list_ascii_of_string s)
  = list_ascii_of_string (encode bytes) ->
  decode s = Some bytes.
Proof.
  intros Hs. unfold decode.
  rewrite (atob_filtered s (Byte.to_N <$> bytes));
    [| now rewrite Hs, encode_groups | apply to_N_codes].
  cbn. rewrite list_ascii_of_string_of_list_ascii. f_equal. apply bytes_of_codes.
Qed.

Lemma b64_groups_no_ws (codes : list N) :
  Forall (fun a => a < 256) codes ->
  filter (fun c => is_ascii_whitespace c = false) (b64_groups codes) = b64_groups codes.
Proof.
  intros Hcodes. pose proof (b64_sextets_range codes Hcodes) as Hsx.
  apply filter_all. rewrite b64_groups_split. apply Forall_app; split.
  - apply Forall_fmap. eapply Forall_impl; [exact Hsx|].
    intros x Hx. now apply b64_char_not_ws.
  - apply b64_padding_chars.
Qed.

(** What is sent decodes to what was encoded. *)
Lemma decode_encode_bytes (bytes : list byte) : decode (encode bytes) = Some bytes.
Proof.
  apply decode_filtered. rewrite encode_groups.
  apply b64_groups_no_ws, to_N_codes.
Qed.

(** X1: the transport text survives white space: a text that, white space
    apart, is the encoding of [bytes] decodes to [bytes]. *)
Theorem decode_ignores_whitespace (s : string) (bytes : list byte) :
  filter (fun c => is_ascii_whitespace c = false) (list_ascii_of_string s)
  = list_ascii_of_string (encode bytes) ->
  decode s = Some bytes /\ decode s = decode (encode bytes).
Proof.
  intros Hs. rewrite decode_encode_bytes. split; now apply decode_filtered.
Qed.

Lemma decode_ignores_whitespace_witness :
  decode "SG Vs bG8=" = Some [x48; x65; x6c; x6c; x6f]
  /\ decode "SG Vs bG8=" = decode (encode [x48; x65; x6c; x6c; x6f]).
Proof.
  apply decode_ignores_whitespace. reflexivity.
Defined.

Lemma strip_padding_keeps (c : ascii) (data : list ascii) :
  c ∈ data -> c <> pad_char -> c ∈ strip_padding data.
Proof.
  intros Hin Hc. unfold strip_padding.
  assert (Hback : forall l : list ascii, c ∈ rev l -> c ∈ l)
    by (intros l Hl; apply list_elem_of_In, in_rev; now apply list_elem_of_In).
  assert (Hrev : c ∈ rev data) by (apply Hback; now rewrite rev_involutive).
  destruct (rev data) as [|p [|q r]] eqn:E.
  - exact Hin.
  - destruct (Ascii.eqb_spec p pad_char) as [->|_]; [|exact Hin].
    apply list_elem_of_singleton in Hrev. contradiction.
  - destruct (Ascii.eqb_spec p pad_char) as [->|_]; [|exact Hin].
    apply elem_of_cons in Hrev as [?|Hrev]; [contradiction|].
    destruct (Ascii.eqb_spec q pad_char) as [->|_].
    + apply elem_of_cons in Hrev as [?|Hrev]; [contradiction|].
      now apply Hback; rewrite rev_involutive.
    + now apply Hback; rewrite rev_involutive.
Qed.

(** X2: a character that is neither white space, nor of the alphabet, nor
    [=] makes [decode] throw, wherever it stands. *)
Theorem decode_invalid_character (base64 : string) (c : ascii) :
  c ∈ list_ascii_of_string base64 ->
  is_ascii_whitespace c = false ->
  b64_index c = None ->
  c <> pad_char ->
  decode base64 = None.
Proof.
  intros Hin Hws Hidx Hpad. unfold decode, atob.
  set (data := filter (fun c => is_ascii_whitespace c = false)
                 (list_ascii_of_string base64)).
  assert (Hdata : c ∈ data) by (apply list_elem_of_filter; now split).
  set (data' := if (N.of_nat (length data) mod 4 =? 0)%N then strip_padding data else data).
  assert (Hdata' : c ∈ data').
  { subst data'. destruct (N.of_nat (length data) mod 4 =? 0)%N;
      [now apply strip_padding_keeps | exact Hdata]. }
  destruct (N.of_nat (length data') mod 4 =? 1)%N; [reflexivity|].
  destruct (mapM b64_index data') as [sextets|] eqn:E; [|reflexivity].
  apply mapM_Some in E.
  apply list_elem_of_lookup in Hdata' as [i Hi].
  destruct (Forall2_lookup_l _ _ _ _ _ E Hi) as (y & _ & Hy). congruence.
Qed.

Lemma decode_invalid_character_witness : decode "SGk*" = None.
Proof.
  apply (decode_invalid_character "SGk*" "*"%char); try reflexivity.
  - cbn. set_solver.
  - discriminate.
Defined.

Lemma b64_groups_shape (l : list N) :
  length (b64_groups l) = (4 * ((length l + 2) / 3))%nat.
Proof.
  induction l as [| a | a b | a b c r IH] using list_ind3; try reflexivity.
  cbn [b64_groups length]. rewrite IH.
  replace (S (S (S (length r))) + 2)%nat with ((length r + 2) + 1 * 3)%nat by lia.
  rewrite Nat.div_add by lia. lia.
Qed.
Lemma string_length_list (s : string) :
  String.length s = length (list_ascii_of_string s).
Proof. induction s as [|c s IH]; cbn; congruence. Qed.

(** X3: the transport text of [n] bytes has four characters for every three
    bytes, the last group padded, and holds only characters of the alphabet
    and [=]. *)
Theorem encode_shape (bytes : list byte) :
  String.length (encode bytes) = (4 * ((length bytes + 2) / 3))%nat
  /\ Forall (fun c => is_Some (b64_index c) \/ c = pad_char)
       (list_ascii_of_string (encode bytes)).
Proof.
  rewrite string_length_list, encode_groups. split.
  - now rewrite b64_groups_shape, length_fmap.
  - rewrite b64_groups_split. apply Forall_app. split.
    + apply Forall_fmap.
      eapply Forall_impl; [apply b64_sextets_range, to_N_codes|].
      intros x Hx. left. exists x. now apply b64_index_char.
    + destruct (b64_padding_cases (Byte.to_N <$> bytes)) as [-> | [-> | ->]];
        repeat (apply Forall_cons; split; [now right|]); apply Forall_nil_2.
Qed.

(** ** More on the PCM conversion *)

(** X4: [decodeAudioData] returns a buffer exactly when the byte count is
    even and there is at least one frame, that is [1 <= N <= L]; the buffer has
    [N] channels of [L / N] frames.  An odd byte count throws [RangeError] and
    an even one without a frame [NotSupportedError]. *)
Theorem decodeAudioData_outcome (data : list byte) (rate : positive) (N : nat) :
  (Z.of_nat (length (int16_pairs data) / N) < 4294967296)%Z ->
  match decodeAudioData data rate N with
  | Ok buffer =>
      Nat.even (length data) = true
      /\ (0 < N <= length (int16_pairs data))%nat
      /\ numberOfChannels buffer = N
      /\ frameLength buffer = (length (int16_pairs data) / N)%nat
  | Throw e =>
      (Nat.even (length data) = false /\ e = RangeError)
      \/ (Nat.even (length data) = true
          /\ (N = 0 \/ length (int16_pairs data) < N)%nat
          /\ e = NotSupportedError)
  end.
Proof.
  intros Hmax.
  destruct (Nat.even (length data)) eqn:Hev.
  2:{ rewrite decodeAudioData_odd by assumption. now left. }
  destruct (Nat.eq_dec N 0%nat) as [->|HN].
  { rewrite decodeAudioData_no_frame by auto. right. auto. }
  destruct (Nat.lt_ge_cases (length (int16_pairs data)) N) as [Hlt|Hge].
  { rewrite decodeAudioData_no_frame by auto. right. auto. }
  destruct (decodeAudioData_frames data rate N Hev ltac:(lia) Hmax)
    as (b & -> & Hn & Hf & _).
  repeat split; try assumption; lia.
Qed.

Lemma decodeAudioData_outcome_witness :
  match decodeAudioData [x01; x00; x02; x00; x03; x00] 24000 2 with
  | Ok buffer => frameLength buffer = 1%nat
  | Throw _ => False
  end.
Proof.
  pose proof (decodeAudioData_outcome [x01; x00; x02; x00; x03; x00] 24000 2
                ltac:(cbn; lia)) as Hout.
  destruct (decodeAudioData [x01; x00; x02; x00; x03; x00] 24000 2) as [buffer|e].
  - now destruct Hout as (_ & _ & _ & ->).
  - destruct Hout as [[Hodd _] | (_ & [H0 | Hlt] & _)];
      [discriminate | discriminate | cbn in Hlt; lia].
Defined.

Lemma byte_of_to_N (b : byte) : byte_of_N (Byte.to_N b) = b.
Proof.
  unfold byte_of_N. pose proof (Byte.to_N_bounded b).
  rewrite N.mod_small by lia. now rewrite Byte.of_to_N.
Qed.

(** X5: the 16-bit view of an even number of bytes and the byte view of the
    16-bit integers undo each other: no byte is lost or reordered. *)
Theorem int16_view_roundtrip (data : list byte) :
  Nat.even (length data) = true ->
  Uint8Array_of_Int16Array (int16_pairs data) = data
  /\ int16_pairs (Uint8Array_of_Int16Array (int16_pairs data)) = int16_pairs data.
Proof.
  intros Hev.
  assert (H1 : Uint8Array_of_Int16Array (int16_pairs data) = data).
  { induction data as [| a | lo hi r IH] using list_ind2.
    - reflexivity.
    - discriminate.
    - cbn [int16_pairs]. unfold Uint8Array_of_Int16Array in *.
      cbn [mbind list_bind app]. rewrite IH by exact Hev. clear IH.
      pose proof (Byte.to_N_bounded lo). pose proof (Byte.to_N_bounded hi).
      set (u := (Z.of_N (Byte.to_N lo) + 256 * Z.of_N (Byte.to_N hi))%Z).
      assert (Hu : ((if (32768 <=? u)%Z then u - 65536 else u) mod 65536 = u)%Z).
      { subst u. destruct (Z.leb_spec 32768
          (Z.of_N (Byte.to_N lo) + 256 * Z.of_N (Byte.to_N hi)));
          Z.to_euclidean_division_equations; lia. }
      rewrite Hu. subst u.
      replace (Z.to_N (Z.of_N (Byte.to_N lo) + 256 * Z.of_N (Byte.to_N hi)) mod 256)
        with (Byte.to_N lo) by (zify; Z.to_euclidean_division_equations; lia).
      replace (Z.to_N (Z.of_N (Byte.to_N lo) + 256 * Z.of_N (Byte.to_N hi)) / 256)
        with (Byte.to_N hi) by (zify; Z.to_euclidean_division_equations; lia).
      now rewrite !byte_of_to_N. }
  split; [exact H1 | now rewrite H1].
Qed.

Lemma int16_view_roundtrip_witness :
  Uint8Array_of_Int16Array (int16_pairs [xff; x7f; x00; x80]) = [xff; x7f; x00; x80]
  /\ int16_pairs (Uint8Array_of_Int16Array (int16_pairs [xff; x7f; x00; x80]))
     = int16_pairs [xff; x7f; x00; x80].
Proof. apply int16_view_roundtrip. reflexivity. Defined.

(** X6: whatever the samples, also out of range or not numbers, a non-empty
    block comes back from the 16-bit conversion and the single-channel
    decoding with as many frames as it had samples, two bytes per sample in
    between. *)
Theorem pcm_block_length (inputData : list number) (rate : positive) :
  inputData <> [] ->
  (Z.of_nat (length inputData) < 4294967296)%Z ->
  length (floatTo16BitPCM inputData) = (2 * length inputData)%nat
  /\ exists buffer,
       decodeAudioData (floatTo16BitPCM inputData) rate 1 = Ok buffer
       /\ numberOfChannels buffer = 1%nat
       /\ frameLength buffer = length inputData.
Proof.
  intros Hne Hmax.
  assert (Hpairs : int16_pairs (floatTo16BitPCM inputData)
                   = (fun x => ToInt16 (number_mul x 32768)) <$> inputData).
  { apply int16_bytes_roundtrip, Forall_fmap, Forall_forall.
    intros x _. apply ToInt16_range. }
  assert (Hpos : (0 < length inputData)%nat)
    by (destruct inputData; [congruence | cbn; lia]).
  split.
  { unfold floatTo16BitPCM. now rewrite int16_bytes_length, length_fmap. }
  destruct (decodeAudioData_frames (floatTo16BitPCM inputData) rate 1)
    as (buffer & Hb & Hn & Hf & _).
  - apply int16_bytes_even.
  - rewrite Hpairs, length_fmap. lia.
  - rewrite Hpairs, length_fmap, Nat.div_1_r. exact Hmax.
  - exists buffer. rewrite Hpairs, length_fmap, Nat.div_1_r in Hf. now repeat split.
Qed.

Lemma pcm_block_length_witness :
  length (floatTo16BitPCM [Num 3; NaN; Num (-5 # 2)]) = 6%nat
  /\ exists buffer,
       decodeAudioData (floatTo16BitPCM [Num 3; NaN; Num (-5 # 2)]) 16000 1 = Ok buffer
       /\ numberOfChannels buffer = 1%nat
       /\ frameLength buffer = 3%nat.
Proof.
  apply (pcm_block_length [Num 3; NaN; Num (-5 # 2)] 16000); [discriminate | cbn; lia].
Defined.

(** ** More on the playback scheduler *)

Section Playing.
Context {T : Type} `{Timeline T}.

Lemma ended_all_sources (sources : list SourceNode) (p : Playback T) :
  let p' := fold_left (fun p source => ended source p) sources p in
  sourcesRef p' = sourcesRef p ∖ list_to_set sources
  /\ nextStartTimeRef p' = nextStartTimeRef p
  /\ started p' = started p
  /\ stopped p' = stopped p.
Proof.
  revert p. induction sources as [|s sources IH]; intros p; cbn.
  - repeat split. set_solver.
  - destruct (IH (ended s p)) as (Hs & Hn & Hst & Hsp).
    rewrite Hs, Hn, Hst, Hsp. cbn. repeat split. set_solver.
Qed.

(** X7: once the [ended] listener has run for every active source node, in
    any order and whatever other nodes ended too, no node is active and the
    examiner-speaking flag is off; the queue and the logs are untouched. *)
Theorem all_ended_stops_speaking (sources : list SourceNode) (p : Playback T) :
  sources <> [] ->
  sourcesRef p ⊆ list_to_set sources ->
  let p' := fold_left (fun p source => ended source p) sources p in
  sourcesRef p' = ∅
  /\ isExaminerSpeaking p' = false
  /\ nextStartTimeRef p' = nextStartTimeRef p
  /\ started p' = started p.
Proof.
  intros Hne Hsub p'. subst p'.
  destruct (ended_all_sources sources p) as (Hs & Hn & Hst & _).
  assert (Hempty : sourcesRef (fold_left (fun p source => ended source p) sources p) = ∅)
    by (rewrite Hs; set_solver).
  repeat split; try assumption.
  destruct (exists_last Hne) as (front & s & ->).
  rewrite fold_left_app in Hempty |- *. cbn [fold_left] in *.
  unfold ended in Hempty |- *. cbn [sourcesRef isExaminerSpeaking] in *.
  rewrite Hempty. now rewrite bool_decide_eq_true_2 by apply size_empty.
Qed.

Lemma Math_max_ge (a b : T) :
  (forall a : T, t_leb a a = true) -> t_leb a (Math_max a b) = true.
Proof.
  intros Hrefl. unfold Math_max.
  destruct (t_leb a b) eqn:E; [exact E | apply Hrefl].
Qed.

(** X8: the buffers that audio messages start never overlap, however late
    or early the messages arrive and whatever was played or cut before: the
    buffers started by any list of payloads that decode are theirs in order,
    the first is started no earlier than the end of the queue as it was, each
    one no earlier than the end of the one before it, and the queue ends
    where the last of them ends. *)
Theorem late_buffers_never_overlap (arrivals : list (Env T * string * AudioBuffer))
    (r : Room T) :
  (forall a : T, t_leb a a = true) ->
  decodable arrivals ->
  let r' := run (audioMessages arrivals) r in
  exists new : list (SourceNode * T * AudioBuffer),
    started (playback r') = started (playback r) ++ new
    /\ snd <$> new = snd <$> arrivals
    /\ no_overlap new
    /\ match new with
       | (_, t1, _) :: _ => t_leb (nextStartTimeRef (playback r)) t1 = true
       | [] => True
       end
    /\ nextStartTimeRef (playback r')
       = match last new with
         | Some (_, t, b) => t_add t (duration b)
         | None => nextStartTimeRef (playback r)
         end.
Proof.
  intros Hrefl Hdec. cbv zeta. revert r.
  induction Hdec as [|[[env b] buf] arrivals [Ht Hd] _ IH]; intros r.
  - exists []. cbn. now rewrite app_nil_r.
  - change (run (audioMessages ((env, b, buf) :: arrivals)) r)
      with (run (audioMessages arrivals) (step env (Message (audioMessage b)) r)).
    cbn [snd] in Ht, Hd. cbn [fst snd] in Ht, Hd.
    rewrite (onmessage_audio env b buf) by assumption.
    set (r1 := set_playback (schedule buf (align (currentTime env) (playback r))) r).
    set (start := Math_max (nextStartTimeRef (playback r)) (currentTime env)).
    assert (Hs1 : started (playback r1)
                  = started (playback r) ++ [(created (playback r), start, buf)])
      by (destruct r; reflexivity).
    assert (Hn1 : nextStartTimeRef (playback r1) = t_add start (duration buf))
      by (destruct r; reflexivity).
    destruct (IH r1) as (new & Hst & Hbuf & Hno & Hfirst & Hend).
    rewrite Hs1 in Hst. rewrite Hn1 in Hfirst, Hend.
    exists ((created (playback r), start, buf) :: new).
    split; [now rewrite Hst, <- app_assoc|].
    split; [cbn; now rewrite Hbuf|].
    split; [|split].
    + cbn [no_overlap]. split; [|exact Hno].
      destruct new as [|[[n1 t1] b1] new']; [exact I | exact Hfirst].
    + now apply Math_max_ge.
    + rewrite Hend. destruct new as [|x new']; [reflexivity|].
      rewrite last_cons_cons.
      destruct (last (x :: new')) eqn:E; [reflexivity|].
      now apply last_None in E.
Qed.
End Playing.

Lemma Qc_leb_refl (a : Qc) : t_leb a a = true.
Proof. apply bool_decide_eq_true. apply Qcle_refl. Qed.

Lemma late_buffers_never_overlap_witness :
  let r' := run (audioMessages [(envAt (Q2Qc 5), "AAA=", silentFrame);
                                (envAt 0, "AAA=", silentFrame);
                                (envAt (Q2Qc 9), "AAA=", silentFrame)]) bargedIn in
  exists new : list (SourceNode * Qc * AudioBuffer),
    started (playback r') = started (playback bargedIn) ++ new
    /\ snd <$> new = [silentFrame; silentFrame; silentFrame]
    /\ no_overlap new
    /\ match new with
       | (_, t1, _) :: _ => t_leb (nextStartTimeRef (playback bargedIn)) t1 = true
       | [] => True
       end
    /\ nextStartTimeRef (playback r')
       = match last new with
         | Some (_, t, b) => t_add t (duration b)
         | None => nextStartTimeRef (playback bargedIn)
         end.
Proof.
  refine (late_buffers_never_overlap
            [(envAt (Q2Qc 5), "AAA=", silentFrame); (envAt 0, "AAA=", silentFrame);
             (envAt (Q2Qc 9), "AAA=", silentFrame)] bargedIn _ _).
  - exact Qc_leb_refl.
  - repeat constructor.
Defined.

(** The buffers started before the run above do overlap: the one cut at 5
    seconds and the one that took its place. *)
Example bargedIn_history_overlaps : ~ no_overlap (started (playback bargedIn)).
Proof. intros [Hover _]. vm_compute in Hover. discriminate. Qed.

Lemma all_ended_stops_speaking_witness :
  let p := playback (run (audioMessages [(envAt 0, "AAA=", silentFrame);
                                         (envAt 0, "AAA=", silentFrame)]) initial) in
  let p' := fold_left (fun p source => ended source p) [1%nat; 0%nat] p in
  isExaminerSpeaking p = true
  /\ sourcesRef p' = ∅
  /\ isExaminerSpeaking p' = false
  /\ nextStartTimeRef p' = nextStartTimeRef p
  /\ started p' = started p.
Proof.
  intros p p'. split; [reflexivity|].
  apply (all_ended_stops_speaking [1%nat; 0%nat] p); [discriminate|].
  vm_compute. set_solver.
Defined.

Section AfterInterrupt.
Context {T : Type} `{Timeline T}.

(** X9: after an interruption the queue starts afresh: the next audio
    payload is started at the output clock, not at the end of the queue that
    was cut, and is the only active source node. *)
Theorem fresh_start_after_interrupt (env1 env2 : Env T) (base64Audio : string)
    (audioBuffer : AudioBuffer) (r : Room T) :
  truthy (Some base64Audio) = true ->
  decoded base64Audio = Ok audioBuffer ->
  t_leb t_zero (currentTime env2) = true ->
  let r' := run [(env1, Message interruptedSignal);
                 (env2, Message (audioMessage base64Audio))] r in
  last (started (playback r'))
  = Some (created (playback r), currentTime env2, audioBuffer)
  /\ sourcesRef (playback r') = {[created (playback r)]}
  /\ nextStartTimeRef (playback r') = t_add (currentTime env2) (duration audioBuffer)
  /\ isExaminerSpeaking (playback r') = true.
Proof.
  intros Ht Hd Hnow r'. subst r'. cbn [run].
  rewrite (onmessage_audio env2 base64Audio audioBuffer) by assumption.
  cbn [step]. rewrite step_interrupted. cbn [final].
  destruct r as [t p c].
  cbn [set_playback playback schedule align interrupt started nextStartTimeRef
       sourcesRef created isExaminerSpeaking].
  rewrite Math_max_r by assumption. rewrite last_snoc.
  repeat split. set_solver.
Qed.

(** X10: a message whose handler throws is dropped as a whole: the
    transcript, the controller, the active nodes and the logs are as before,
    whatever fragments and signals the message carried; a handler that throws
    before the audio is looked at changes nothing at all. *)
Theorem rejected_message_is_dropped (env : Env T) (message : Msg.LiveServerMessage)
    (r r' : Room T) (e : exn) :
  onmessage env message r = Rejected e r' ->
  transcript r' = transcript r
  /\ controller r' = controller r
  /\ sourcesRef (playback r') = sourcesRef (playback r)
  /\ started (playback r') = started (playback r)
  /\ stopped (playback r') = stopped (playback r)
  /\ (e = TypeError -> r' = r).
Proof.
  unfold onmessage. intros Hrej.
  destruct (base64Audio_of message) as [b|e0] eqn:Hb.
  - destruct (audioPayload env b (playback r)) as [p|e1 p] eqn:Hp; [discriminate|].
    injection Hrej as <- <-.
    unfold audioPayload in Hp.
    destruct b as [[|c rest]|]; try discriminate.
    destruct (decoded (String c rest)) as [buf|e2] eqn:Hd; [discriminate|].
    injection Hp as <- <-. destruct r as [t p0 c0]. cbn.
    repeat split. intros ->.
    unfold decoded in Hd. destruct (decode (String c rest)); [|discriminate].
    unfold decodeAudioData, Int16Array_of_buffer in Hd.
    destruct (Nat.even (length l)); cbn in Hd; [|discriminate].
    unfold createBuffer in Hd. destruct (_ || _); discriminate.
  - injection Hrej as <- <-. repeat split.
Qed.
End AfterInterrupt.

Lemma fresh_start_after_interrupt_witness :
  let r := run (audioMessages [(envAt (Q2Qc 5), "AAA=", silentFrame)]) initial in
  let r' := run [(envAt (Q2Qc 5), Message interruptedSignal);
                 (envAt (Q2Qc 2), Message (audioMessage "AAA="))] r in
  last (started (playback r')) = Some (created (playback r), Q2Qc 2, silentFrame)
  /\ sourcesRef (playback r') = {[created (playback r)]}
  /\ nextStartTimeRef (playback r') = (Q2Qc 2 + duration silentFrame)%Qc
  /\ isExaminerSpeaking (playback r') = true.
Proof.
  intros r.
  refine (fresh_start_after_interrupt (envAt (Q2Qc 5)) (envAt (Q2Qc 2)) "AAA="
            silentFrame r _ _ _); reflexivity.
Defined.

Lemma rejected_message_is_dropped_witness :
  let r := run [(envAt 0, Message (outputFragment "Define work."))] initial in
  exists r',
    onmessage (envAt 0) garbledAudio r = Rejected InvalidCharacterError r'
    /\ transcript r' = transcript r
    /\ currentOutputTextRef (transcript r') = "Define work.".
Proof.
  intros r. eexists. split; [reflexivity|].
  split; [|reflexivity].
  eapply (rejected_message_is_dropped (envAt 0) garbledAudio r). reflexivity.
Defined.

(** ** More on the transcript *)

Section Log.
Context {T : Type} `{Timeline T}.

Lemma stopActiveSession_transcript (r : Room T) :
  transcript (stopActiveSession r) = transcript r.
Proof. destruct r as [t p c]. reflexivity. Qed.

Lemma startSession_transcript (env : Env T) (r : Room T) :
  transcript (startSession env r) = transcript r.
Proof.
  unfold startSession. cbv zeta.
  pose proof (stopActiveSession_transcript
                (set_controller (set_errorMessage None (controller r)) r)) as Hs.
  destruct (stopActiveSession _) as [t2 p2 c2]. destruct r as [t p c].
  cbn in Hs |- *.
  destruct (streamRef c2), (getUserMedia env), (connectResult env); exact Hs.
Qed.

Lemma teardown_transcript (r : Room T) : transcript (teardown r) = transcript r.
Proof.
  unfold teardown. cbv zeta.
  pose proof (stopActiveSession_transcript
                (set_controller (set_isClosingRef true (controller r)) r)) as Hs.
  destruct (stopActiveSession _) as [t2 p2 c2]. destruct r as [t p c].
  cbn in Hs |- *. destruct (streamRef c2); exact Hs.
Qed.

Lemma fire_transcript (env : Env T) (i : nat) (r : Room T) :
  transcript (fire env i r) = transcript r.
Proof.
  unfold fire. cbv zeta.
  destruct (find _ _) as [t|]; [|reflexivity].
  destruct (_ <=? _)%N; [|reflexivity].
  destruct (callback t); [rewrite startSession_transcript| |];
    destruct r as [t0 p c]; reflexivity.
Qed.

(** The transcript after a step: only a message changes it, by its
    fragments and then by the end of the turn. *)
Lemma step_transcript (env : Env T) (ev : Event) (r : Room T) :
  transcript (step env ev r)
  = match ev with
    | Message message =>
        match onmessage env message r with
        | Done _ =>
            let t := transcription message (transcript r) in
            if flag Msg.turnComplete message then turnComplete env t else t
        | Rejected _ _ => transcript r
        end
    | _ => transcript r
    end.
Proof.
  destruct ev; cbn [step];
    try (destruct r as [t p c]; reflexivity).
  - destruct (onmessage env message r) as [r'|e r'] eqn:Hm.
    + unfold onmessage in Hm.
      destruct (base64Audio_of message); [|discriminate].
      destruct (audioPayload env a (playback r)); [|discriminate].
      injection Hm as <-. destruct r as [t p0 c].
      destruct (flag Msg.turnComplete message), (flag Msg.interrupted message);
        reflexivity.
    + unfold onmessage in Hm.
      destruct (base64Audio_of message).
      * destruct (audioPayload env a (playback r)); [discriminate|].
        injection Hm as _ <-. destruct r as [t p0 c]. reflexivity.
      * now injection Hm as _ <-.
  - unfold mount. rewrite startSession_transcript. destruct r as [t p c]. reflexivity.
  - apply teardown_transcript.
  - apply fire_transcript.
Qed.

Lemma transcription_log (message : Msg.LiveServerMessage) (t : Transcript) :
  transcriptions (transcription message t) = transcriptions t.
Proof.
  unfold transcription.
  destruct (_ ≫= Msg.outputTranscription); [reflexivity|].
  destruct (_ ≫= Msg.inputTranscription); reflexivity.
Qed.

Lemma step_appends (env : Env T) (ev : Event) (r : Room T) :
  transcriptions (transcript r) `prefix_of` transcriptions (transcript (step env ev r)).
Proof.
  rewrite step_transcript.
  destruct ev; try reflexivity.
  destruct (onmessage env message r); [|reflexivity]. cbv zeta.
  destruct (flag Msg.turnComplete message).
  - rewrite turnComplete_commits. cbn [transcriptions].
    rewrite transcription_log. now apply prefix_app_r.
  - now rewrite transcription_log.
Qed.

(** X11: the committed log only grows at its end: whatever happens (messages,
    errors, timers, restarts, teardown), the entries committed so far stay,
    in their order, at the head of the log. *)
Theorem transcript_append_only (trace : list (Env T * Event)) (r : Room T) :
  transcriptions (transcript r) `prefix_of` transcriptions (transcript (run trace r)).
Proof.
  revert r. induction trace as [|[env ev] trace IH]; intros r; [reflexivity|].
  cbn [run]. etransitivity; [apply step_appends | apply IH].
Qed.

Lemma transcription_ok (message : Msg.LiveServerMessage) (t : Transcript) :
  transcript_ok t -> transcript_ok (transcription message t).
Proof.
  intros (Hi & Ho & Hne). unfold transcription, transcript_ok.
  destruct (_ ≫= Msg.outputTranscription) as [f|]; cbn.
  - now rewrite Ho.
  - destruct (_ ≫= Msg.inputTranscription) as [f|]; cbn; [now rewrite Hi | auto].
Qed.

Lemma turnComplete_ok (env : Env T) (t : Transcript) :
  transcript_ok t -> transcript_ok (turnComplete env t).
Proof.
  intros (_ & _ & Hne). rewrite turnComplete_commits. unfold transcript_ok. cbn.
  repeat split. apply Forall_app. split; [exact Hne|].
  unfold committed.
  destruct (currentInputTextRef t), (currentOutputTextRef t);
    repeat constructor; discriminate.
Qed.

Lemma step_ok (env : Env T) (ev : Event) (r : Room T) :
  transcript_ok (transcript r) -> transcript_ok (transcript (step env ev r)).
Proof.
  intros Hok. rewrite step_transcript.
  destruct ev; try exact Hok.
  destruct (onmessage env message r); [|exact Hok]. cbv zeta.
  destruct (flag Msg.turnComplete message).
  - now apply turnComplete_ok, transcription_ok.
  - now apply transcription_ok.
Qed.

Lemma run_ok (trace : list (Env T * Event)) (r : Room T) :
  transcript_ok (transcript r) -> transcript_ok (transcript (run trace r)).
Proof.
  revert r. induction trace as [|[env ev] trace IH]; intros r Hok; [exact Hok|].
  cbn [run]. now apply IH, step_ok.
Qed.

(** X12: in every state the component reaches, the pending text shown on
    screen is the pending text that the next turn-complete will commit, for
    both roles. *)
Theorem pending_text_is_shown (trace : list (Env T * Event)) :
  let t := transcript (run trace initial) in
  currentInputText t = currentInputTextRef t
  /\ currentOutputText t = currentOutputTextRef t.
Proof.
  destruct (run_ok trace initial) as (Hi & Ho & _); [|now split].
  repeat split. constructor.
Qed.

(** X13: in every state the component reaches, no committed entry has an
    empty text. *)
Theorem no_empty_entry (trace : list (Env T * Event)) :
  Forall (fun e => text e <> "") (transcriptions (transcript (run trace initial))).
Proof.
  destruct (run_ok trace initial) as (_ & _ & Hne); [|exact Hne].
  repeat split. constructor.
Qed.
End Log.

Section Conservation.
Context {T : Type} `{Timeline T}.

Lemma joined_app (l1 l2 : list string) :
  joined (l1 ++ l2) = (joined l1 ++ joined l2)%string.
Proof.
  induction l1 as [|s l1 IH]; [reflexivity|].
  cbn. unfold joined in IH. now rewrite IH, append_assoc.
Qed.

Lemma committed_text (who : Role) (env : Env T) (finalInput finalOutput : string) :
  joined (text <$> filter (fun e => role e = who) (committed env finalInput finalOutput))
  = match who with user => finalInput | examiner => finalOutput end.
Proof.
  unfold committed.
  destruct finalInput as [|a i], finalOutput as [|b o], who;
    rewrite ?filter_cons, ?filter_nil; cbn [role candidateEntry examinerEntry];
    repeat case_decide; try congruence; cbn;
    rewrite ?append_empty_r; reflexivity.
Qed.

Lemma spoken_transcription (who : Role) (message : Msg.LiveServerMessage)
    (t : Transcript) :
  spoken who (transcription message t)
  = (spoken who t
     ++ match who with
        | user => inputText message
        | examiner => outputText message
        end)%string.
Proof.
  unfold spoken, transcription, inputText, outputText, js_append.
  destruct (_ ≫= Msg.outputTranscription) as [f|]; cbn.
  - destruct who; now rewrite ?append_empty_r, ?append_assoc.
  - destruct (_ ≫= Msg.inputTranscription) as [f|]; cbn;
      destruct who; now rewrite ?append_empty_r, ?append_assoc.
Qed.

Lemma spoken_turnComplete (who : Role) (env : Env T) (t : Transcript) :
  spoken who (turnComplete env t) = spoken who t.
Proof.
  rewrite turnComplete_commits. unfold spoken. cbn.
  rewrite filter_app, fmap_app, joined_app, committed_text.
  destruct who; now rewrite append_empty_r.
Qed.

Lemma step_spoken (who : Role) (env : Env T) (ev : Event) (r : Room T) :
  spoken who (transcript (step env ev r))
  = (spoken who (transcript r) ++ heard who env ev r)%string.
Proof.
  rewrite step_transcript. unfold heard.
  destruct ev; try now rewrite append_empty_r.
  destruct (onmessage env message r); [|now rewrite append_empty_r]. cbv zeta.
  destruct (flag Msg.turnComplete message);
    now rewrite ?spoken_turnComplete, spoken_transcription.
Qed.

(** X14: no text is lost, repeated or moved between the roles: after any
    run, the text of a role (its committed entries in order, then its pending
    text) is its text before the run followed by the fragments of that role
    in the messages whose handler ran to its end, in their order of arrival.
    Each call of the handler is one step here: a message that arrives while
    an earlier call is suspended at [await decodeAudioData] is not covered. *)
Theorem text_is_conserved (who : Role) (trace : list (Env T * Event)) (r : Room T) :
  spoken who (transcript (run trace r))
  = (spoken who (transcript r) ++ heardAlong who trace r)%string.
Proof.
  revert r. induction trace as [|[env ev] trace IH]; intros r.
  - cbn. now rewrite append_empty_r.
  - cbn [run heardAlong]. now rewrite IH, step_spoken, append_assoc.
Qed.
End Conservation.

(** ** Timers and sessions *)

(** *** Timers that are gone stay gone *)

Lemma timerGone_filter (i j : nat) (made : nat) (tms : list Timer) :
  Forall (fun t => timerId t ≠ i) tms ->
  Forall (fun t => timerId t ≠ i) (filter (fun t => timerId t ≠ j) tms).
Proof.
  intros Hg. apply Forall_forall. intros t [_ Ht]%list_elem_of_filter.
  rewrite Forall_forall in Hg. now apply Hg.
Qed.

Lemma find_gone (i : nat) (tms : list Timer) :
  Forall (fun t => timerId t ≠ i) tms ->
  find (fun t => bool_decide (timerId t = i)) tms = None.
Proof.
  induction 1 as [|t tms Ht _ IH]; [reflexivity|].
  cbn. now rewrite bool_decide_eq_false_2.
Qed.

Section Gone.
Context {T : Type} `{Timeline T}.

Lemma addTimer_gone (i : nat) (cb : TimerCallback) (delay : N) (period : option N)
    (c : Controller) :
  timerGone i c -> timerGone i (addTimer cb delay period c).
Proof.
  intros [Hi Hg].
  destruct c as [act ana err ses str frm cls clk tms made pnd obx cns cld trk sts].
  cbn in *. split; cbn; [lia|].
  apply Forall_app. split; [exact Hg|]. repeat constructor. cbn. lia.
Qed.

Lemma stopActiveSession_gone (i : nat) (r : Room T) :
  timerGone i (controller r) -> timerGone i (controller (stopActiveSession r)).
Proof.
  intros [Hi Hg]. open_room r. cbn in *. unfold stopActiveSession. cbn.
  destruct ses, frm; cbn; (split; cbn; [exact Hi|]);
    try assumption; now apply (timerGone_filter i _ made).
Qed.

Lemma startSession_gone (i : nat) (env : Env T) (r : Room T) :
  timerGone i (controller r) -> timerGone i (controller (startSession env r)).
Proof.
  intros Hg. unfold startSession. cbv zeta.
  assert (H1 : timerGone i (controller
                 (stopActiveSession
                    (set_controller (set_errorMessage None (controller r)) r)))).
  { apply stopActiveSession_gone. open_room r. exact Hg. }
  remember (stopActiveSession _) as r2 eqn:E. clear E Hg r.
  open_room r2. cbn in H1 |- *.
  destruct str, (getUserMedia env), (connectResult env); cbn; exact H1.
Qed.

Lemma frameTick_gone (i : nat) (env : Env T) (s : Session) (c : Controller) :
  timerGone i c -> timerGone i (frameTick env s c).
Proof.
  intros Hg. unfold frameTick.
  destruct (_ && _); [|exact Hg].
  destruct (context2d env); [|exact Hg].
  pose proof (addTimer_gone i CbAnalyzingOff 200 None (set_isAnalyzing true c)) as Ha.
  destruct c as [act ana err ses str frm cls clk tms made pnd obx cns cld trk sts].
  cbn in *. exact (Ha Hg).
Qed.

Lemma fire_gone (i : nat) (env : Env T) (r : Room T) :
  timerGone i (controller r) -> fire env i r = r.
Proof.
  intros [_ Hg]. unfold fire. cbv zeta. now rewrite (find_gone i _ Hg).
Qed.

Lemma step_gone (i : nat) (env : Env T) (ev : Event) (r : Room T) :
  timerGone i (controller r) -> timerGone i (controller (step env ev r)).
Proof.
  intros Hg. destruct ev; cbn [step set_controller set_playback controller].
  - now rewrite onmessage_controller.
  - exact Hg.
  - unfold onaudioprocess. destruct (_ || _); [exact Hg|].
    open_room r. exact Hg.
  - unfold sendPending. destruct (pending (controller r)) as [|[s0 media] rest] eqn:E;
      [exact Hg|]. open_room r. cbn in *. destruct cls; exact Hg.
  - unfold onopen. cbv zeta.
    pose proof (addTimer_gone i (CbFrame s) 3000 (Some 3000)
                  (set_isActive true
                     (set_statusLog (statusLog (controller r) ++ [ACTIVE]) (controller r))))
      as Ha.
    open_room r. cbn in *. exact (Ha Hg).
  - unfold onerror, setTimeout.
    pose proof (addTimer_gone i CbStartSession 1500 None
                  (set_errorMessage (Some "System error. Restarting...") (controller r)))
      as Ha.
    open_room r. exact (Ha Hg).
  - open_room r. exact Hg.
  - unfold mount. apply startSession_gone. open_room r. exact Hg.
  - unfold teardown. cbv zeta.
    assert (H1 : timerGone i (controller
                   (stopActiveSession
                      (set_controller (set_isClosingRef true (controller r)) r)))).
    { apply stopActiveSession_gone. open_room r. exact Hg. }
    remember (stopActiveSession _) as r2 eqn:E. clear E Hg r.
    open_room r2. cbn in H1 |- *. destruct str; cbn; exact H1.
  - open_room r. exact Hg.
  - unfold fire. cbv zeta.
    destruct (find _ _) as [t|] eqn:Hfind; [|exact Hg].
    destruct (due t <=? clock (controller r))%N; [|exact Hg].
    destruct Hg as [Hi Hg].
    assert (Hne : i0 <> i).
    { intros ->. now rewrite (find_gone i _ Hg) in Hfind. }
    assert (H1 : timerGone i
                   (set_timers
                      (filter (fun t => timerId t ≠ i0) (timers (controller r)) ++
                       match every t with
                       | Some period =>
                           [{| timerId := i0; due := due t + period;
                               callback := callback t; every := every t |}]
                       | None => []
                       end) (controller r))).
    { open_room r. cbn in *. split; [exact Hi|]. cbn.
      apply Forall_app. split; [now apply (timerGone_filter i _ made)|].
      destruct (every t); repeat constructor. exact Hne. }
    destruct (callback t).
    + apply startSession_gone. exact H1.
    + cbn [controller set_controller].
      remember (set_timers _ _) as c2 eqn:E. clear E.
      destruct c2. exact H1.
    + cbn [controller set_controller]. now apply frameTick_gone.
Qed.

Lemma run_gone (i : nat) (trace : list (Env T * Event)) (r : Room T) :
  timerGone i (controller r) -> timerGone i (controller (run trace r)).
Proof.
  revert r. induction trace as [|[env ev] trace IH]; intros r Hg; [exact Hg|].
  cbn [run]. now apply IH, step_gone.
Qed.

Lemma stopActiveSession_clears (i : nat) (r : Room T) :
  timers_wf (controller r) ->
  frameIntervalRef (controller r) = Some i ->
  timerGone i (controller (stopActiveSession r)).
Proof.
  intros [Hwf Hframe] Hi. specialize (Hframe i Hi).
  open_room r. cbn in *. subst frm. unfold stopActiveSession. cbn.
  destruct ses; cbn; (split; [exact Hframe|]); cbn;
    apply Forall_forall; now intros tm [Ht _]%list_elem_of_filter.
Qed.

(** X15: once [stopActiveSession] has cleared the frame interval, its callback
    never runs again: whatever happens afterwards (restarts and new timers
    included), firing that timer changes nothing. *)
Theorem cleared_interval_never_fires (i : nat) (r : Room T)
    (trace : list (Env T * Event)) (env : Env T) :
  timers_wf (controller r) ->
  frameIntervalRef (controller r) = Some i ->
  let r' := run trace (stopActiveSession r) in
  fire env i r' = r'.
Proof.
  intros Hwf Hi r'. apply fire_gone, run_gone. now apply stopActiveSession_clears.
Qed.

(** X16: a timeout runs its callback at most once: after a due timeout has
    fired, whatever happens afterwards, firing it again changes nothing. *)
Theorem timeout_fires_once (i : nat) (tm : Timer) (r : Room T)
    (trace : list (Env T * Event)) (env env' : Env T) :
  timers_wf (controller r) ->
  find (fun t => bool_decide (timerId t = i)) (timers (controller r)) = Some tm ->
  every tm = None ->
  (due tm <= clock (controller r))%N ->
  let r' := run trace (fire env i r) in
  fire env' i r' = r'.
Proof.
  intros [Hwf Hframe] Hfind Hev Hdue%N.leb_le r'.
  apply fire_gone, run_gone.
  destruct (find_ids_below _ _ _ _ Hwf Hfind) as [Hi _].
  unfold fire. cbv zeta. rewrite Hfind, Hdue, Hev.
  assert (H1 : timerGone i
                 (set_timers
                    (filter (fun t => timerId t ≠ i) (timers (controller r)) ++ [])
                    (controller r))).
  { clear Hfind Hdue. open_room r. cbn in *. split; [exact Hi|]. cbn.
    rewrite app_nil_r.
    apply Forall_forall. now intros t' [Ht _]%list_elem_of_filter. }
  destruct (callback tm).
  - apply startSession_gone. exact H1.
  - cbn [controller set_controller].
    remember (set_timers _ _) as c2 eqn:E. clear E.
    destruct c2. exact H1.
  - cbn [controller set_controller]. now apply frameTick_gone.
Qed.
End Gone.

Lemma live_timers_wf : timers_wf (controller live).
Proof.
  unfold timers_wf. vm_compute.
  split; [repeat constructor | intros i [= <-]; repeat constructor].
Qed.

Lemma cleared_interval_never_fires_witness :
  let r' := run [(envAt 0, Mount); (envAt 0, Open 2%nat); (envAt 0, Elapse 3000)]
                (stopActiveSession live) in
  fire (envAt 0) 1 r' = r'.
Proof.
  refine (cleared_interval_never_fires 1 live
            [(envAt 0, Mount); (envAt 0, Open 2%nat); (envAt 0, Elapse 3000)]
            (envAt 0) _ _).
  - exact live_timers_wf.
  - reflexivity.
Defined.

Lemma timeout_fires_once_witness :
  let r' := run [(envAt 0, Elapse 5000)] (fire (envAt 0) 2 retryDue) in
  fire (envAt 0) 2 r' = r'.
Proof.
  refine (timeout_fires_once 2 (retryTimer (controller live)) retryDue
            [(envAt 0, Elapse 5000)] (envAt 0) (envAt 0) _ _ _ _).
  - apply run_timers_wf, live_timers_wf.
  - vm_compute. reflexivity.
  - reflexivity.
  - vm_compute. discriminate.
Defined.

(** *** Stopping, starting and tearing down *)

Section StopStart.
Context {T : Type} `{Timeline T}.

Lemma stopActiveSession_twice (r : Room T) :
  stopActiveSession (stopActiveSession r) = stopActiveSession r.
Proof.
  open_room r. destruct p as [spk nxt src crt sta stp].
  unfold stopActiveSession. destruct ses, frm; cbn;
    now rewrite (right_id_L ∅ (∪)).
Qed.

Lemma teardown_idle (r : Room T) :
  sessionRef (controller r) = None ->
  frameIntervalRef (controller r) = None ->
  streamRef (controller r) = None ->
  sourcesRef (playback r) = ∅ ->
  isClosingRef (controller r) = true ->
  isExaminerSpeaking (playback r) = false ->
  teardown r = r.
Proof.
  open_room r. destruct p as [spk nxt src crt sta stp]. cbn.
  intros -> -> -> -> -> ->. unfold teardown, stopActiveSession. cbn.
  now rewrite (right_id_L ∅ (∪)).
Qed.

Lemma teardown_leaves (r : Room T) :
  sessionRef (controller (teardown r)) = None
  /\ frameIntervalRef (controller (teardown r)) = None
  /\ streamRef (controller (teardown r)) = None
  /\ sourcesRef (playback (teardown r)) = ∅
  /\ isClosingRef (controller (teardown r)) = true
  /\ isExaminerSpeaking (playback (teardown r)) = false.
Proof.
  open_room r. destruct p as [spk nxt src crt sta stp].
  unfold teardown, stopActiveSession. destruct ses, frm, str; cbn; repeat split.
Qed.

(** X17: stopping and tearing down are idempotent: a second call in a row
    closes no session, stops no node or track and clears no timer. *)
Theorem stop_and_teardown_idempotent (r : Room T) :
  stopActiveSession (stopActiveSession r) = stopActiveSession r
  /\ teardown (teardown r) = teardown r.
Proof.
  split; [apply stopActiveSession_twice|].
  destruct (teardown_leaves r) as (H1 & H2 & H3 & H4 & H5 & H6).
  now apply teardown_idle.
Qed.

(** X19: what the teardown of the effect leaves: the closing flag up, no
    session, no frame interval, no stream and no active node; the session it
    found has been closed and the tracks of the stream it found stopped;
    nothing was sent. *)
Theorem teardown_releases (r : Room T) :
  let r' := teardown r in
  isClosingRef (controller r') = true
  /\ sessionRef (controller r') = None
  /\ frameIntervalRef (controller r') = None
  /\ streamRef (controller r') = None
  /\ sourcesRef (playback r') = ∅
  /\ closed (controller r') = closed (controller r) ++ listOf (sessionRef (controller r))
  /\ tracksStopped (controller r')
     = tracksStopped (controller r) ++ listOf (streamRef (controller r))
  /\ outbox (controller r') = outbox (controller r).
Proof.
  open_room r. destruct p as [spk nxt src crt sta stp].
  unfold teardown, stopActiveSession. destruct ses, frm, str; cbn;
    rewrite ?app_nil_r; repeat split.
Qed.
End StopStart.

Section Sessions.
Context {T : Type} `{Timeline T}.

Lemma stopActiveSession_closes (r : Room T) :
  sessionRef (controller (stopActiveSession r)) = None
  /\ closed (controller (stopActiveSession r))
     = closed (controller r) ++ listOf (sessionRef (controller r)).
Proof.
  open_room r. unfold stopActiveSession. destruct ses, frm; cbn;
    rewrite ?app_nil_r; now split.
Qed.

Lemma startSession_closes (env : Env T) (r : Room T) :
  closed (controller (startSession env r))
  = closed (controller r) ++ listOf (sessionRef (controller r)).
Proof.
  unfold startSession. cbv zeta.
  pose proof (stopActiveSession_closes
                (set_controller (set_errorMessage None (controller r)) r)) as [_ Hs].
  remember (stopActiveSession _) as r2 eqn:E. clear E.
  destruct r2 as [t2 p2 [? ? ? ? str2 ? ? ? ? ? ? ? ? ? ? ?]].
  open_room r. cbn in Hs |- *.
  destruct str2, (getUserMedia env), (connectResult env); exact Hs.
Qed.

Lemma teardown_closes (r : Room T) :
  sessionRef (controller (teardown r)) = None
  /\ closed (controller (teardown r))
     = closed (controller r) ++ listOf (sessionRef (controller r)).
Proof.
  unfold teardown. cbv zeta.
  pose proof (stopActiveSession_closes
                (set_controller (set_isClosingRef true (controller r)) r)) as [Hn Hs].
  remember (stopActiveSession _) as r2 eqn:E. clear E.
  destruct r2 as [t2 p2 [? ? ? ? str2 ? ? ? ? ? ? ? ? ? ? ?]].
  open_room r. cbn in Hn, Hs |- *.
  destruct str2; now split.
Qed.

Lemma frameTick_session {U} (env : Env U) (s : Session) (c : Controller) :
  sessionRef (frameTick env s c) = sessionRef c
  /\ closed (frameTick env s c) = closed c.
Proof.
  unfold frameTick. destruct (_ && _); [|now split].
  destruct (context2d env); [|now split].
  destruct c. now split.
Qed.

(** After a step the session is the one before, with nothing closed, or the
    session before has been closed. *)
Lemma step_session (env : Env T) (ev : Event) (r : Room T) :
  let c := controller r in
  let c' := controller (step env ev r) in
  sessionRef c' = sessionRef c /\ closed c' = closed c
  \/ closed c' = closed c ++ listOf (sessionRef c).
Proof.
  cbv zeta. destruct ev; cbn [step set_controller set_playback controller].
  - rewrite onmessage_controller. now left.
  - now left.
  - left. unfold onaudioprocess. destruct (_ || _); [now split|].
    open_room r. now split.
  - left. unfold sendPending. destruct (pending (controller r)) as [|[s0 media] rest];
      [now split|]. open_room r. cbn. destruct cls; now split.
  - left. open_room r. now split.
  - left. open_room r. now split.
  - left. open_room r. now split.
  - right. unfold mount. rewrite startSession_closes. open_room r. reflexivity.
  - right. destruct (teardown_closes r) as [_ ->]. reflexivity.
  - left. open_room r. now split.
  - unfold fire. cbv zeta.
    destruct (find _ _) as [tm|]; [|now left].
    destruct (due tm <=? clock (controller r))%N; [|now left].
    destruct (callback tm).
    + right. rewrite startSession_closes. open_room r. reflexivity.
    + left. open_room r. now split.
    + left. cbn [controller set_controller].
      match goal with
      | |- context [frameTick env ?s ?c2] =>
          destruct (frameTick_session env s c2) as [-> ->]
      end.
      open_room r. now split.
Qed.

(** X20: a session is never dropped without being closed: whatever happens
    to the component, a session held in [sessionRef] is still held there, or
    [close()] has been called on it.  Each call of [startSession] is one
    step here: no two of them are in flight at once. *)
Theorem session_closed_when_dropped (s : Session) (trace : list (Env T * Event))
    (r : Room T) :
  sessionRef (controller r) = Some s ->
  sessionRef (controller (run trace r)) = Some s
  \/ s ∈ closed (controller (run trace r)).
Proof.
  assert (Hkeep : forall trace r,
            s ∈ closed (controller r) -> s ∈ closed (controller (run trace r))).
  { clear trace r. induction trace as [|[env ev] trace IH]; intros r Hs; [exact Hs|].
    cbn [run]. apply IH.
    destruct (step_session env ev r) as [[_ ->]| ->]; [exact Hs|].
    apply elem_of_app. now left. }
  revert r. induction trace as [|[env ev] trace IH]; intros r Hs; [now left|].
  cbn [run]. destruct (step_session env ev r) as [[Hsame _]|Hclosed].
  - apply IH. now rewrite Hsame.
  - right. apply Hkeep. rewrite Hclosed, Hs. apply elem_of_app. right.
    now apply list_elem_of_singleton.
Qed.
End Sessions.

Lemma session_closed_when_dropped_witness :
  let r' := run [(envAt 0, Error); (envAt 0, Elapse 1500); (envAt 0, Fire 2%nat);
                 (envAt 0, Teardown)] live in
  sessionRef (controller r') = Some 1%nat \/ 1%nat ∈ closed (controller r').
Proof.
  refine (session_closed_when_dropped 1%nat
            [(envAt 0, Error); (envAt 0, Elapse 1500); (envAt 0, Fire 2%nat);
             (envAt 0, Teardown)] live _).
  reflexivity.
Defined.

(** *** What is sent *)

Lemma upto_comma_free (s : string) : commaFree s -> upto_comma s = s.
Proof.
  induction s as [|c s IH]; [reflexivity|]. intros [Hc Hs]. cbn.
  apply Ascii.eqb_neq in Hc. rewrite Hc. now rewrite IH.
Qed.

Lemma upto_comma_app (payload rest : string) :
  commaFree payload ->
  upto_comma (payload ++ String "," rest) = payload.
Proof.
  induction payload as [|c s IH]; [reflexivity|]. intros [Hc Hs].
  rewrite append_cons. cbn. apply Ascii.eqb_neq in Hc. rewrite Hc. now rewrite IH.
Qed.

Lemma split_comma_1_app (prefix rest : string) :
  commaFree prefix ->
  split_comma_1 (prefix ++ String "," rest) = Some (upto_comma rest).
Proof.
  induction prefix as [|c s IH]; [reflexivity|]. intros [Hc Hs].
  rewrite append_cons. cbn. apply Ascii.eqb_neq in Hc. rewrite Hc. now apply IH.
Qed.

Lemma split_comma_1_free (s : string) : commaFree s -> split_comma_1 s = None.
Proof.
  induction s as [|c s IH]; [reflexivity|]. intros [Hc Hs]. cbn.
  apply Ascii.eqb_neq in Hc. rewrite Hc. now apply IH.
Qed.

(** X21: [dataUrl.split(',')[1]] is the text between the first comma and the
    second one, or the end: the payload of a data URL with one comma, and
    nothing ([undefined]) when there is no comma. *)
Theorem split_comma_payload (prefix payload rest : string) :
  commaFree prefix ->
  commaFree payload ->
  split_comma_1 (prefix ++ String "," payload) = Some payload
  /\ split_comma_1 (prefix ++ String "," (payload ++ String "," rest)) = Some payload
  /\ split_comma_1 prefix = None.
Proof.
  intros Hp Hs. split; [|split].
  - rewrite split_comma_1_app by exact Hp. now rewrite upto_comma_free.
  - rewrite split_comma_1_app by exact Hp. now rewrite upto_comma_app.
  - now apply split_comma_1_free.
Qed.

Lemma split_comma_payload_witness :
  split_comma_1 ("data:image/jpeg;base64" ++ String "," "AAAA") = Some "AAAA"
  /\ split_comma_1 ("data:image/jpeg;base64" ++ String "," ("AAAA" ++ String "," "x"))
     = Some "AAAA"
  /\ split_comma_1 "data:image/jpeg;base64" = None.
Proof.
  refine (split_comma_payload "data:image/jpeg;base64" "AAAA" "x" _ _);
    cbn; repeat split; discriminate.
Defined.

(** X22: a captured block reaches the wire as its 16-bit samples: while the
    session is open and the component is not closing, the block handed to
    [onaudioprocess] is sent to the session of its closure, tagged as 16 kHz
    PCM, and its payload decodes to the bytes of its samples. *)
Theorem audio_block_is_sent (s : Session) (inputData : list number) (c : Controller) :
  isClosingRef c = false ->
  is_Some (sessionRef c) ->
  pending c = [] ->
  exists payload,
    outbox (sendPending (onaudioprocess s inputData c))
    = outbox c ++ [(s, {| data := Some payload; mimeType := "audio/pcm;rate=16000" |})]
    /\ decode payload = Some (floatTo16BitPCM inputData).
Proof.
  intros Hc Hs Hq. exists (encode (floatTo16BitPCM inputData)).
  split; [|apply decode_encode_bytes].
  unfold onaudioprocess. rewrite Hc, (bool_decide_eq_true_2 _ Hs). cbn.
  destruct c; cbn in *. subst. reflexivity.
Qed.

Lemma audio_block_is_sent_witness :
  exists payload,
    outbox (sendPending (onaudioprocess 1%nat [Num (1 # 2)] liveController))
    = outbox liveController
      ++ [(1%nat, {| data := Some payload; mimeType := "audio/pcm;rate=16000" |})]
    /\ decode payload = Some (floatTo16BitPCM [Num (1 # 2)]).
Proof.
  refine (audio_block_is_sent 1%nat [Num (1 # 2)] liveController _ _ _).
  - reflexivity.
  - now exists 1%nat.
  - reflexivity.
Defined.

(** X23: a captured frame reaches the wire as the payload of its data URL:
    with the video and the canvas in place, the session open and the
    component not closing, the frame callback shows the analysing mark, sets
    the 200 ms timeout that takes it off, and the frame is sent to the
    session of its closure as a JPEG whose data is the text after the comma
    of the data URL. *)
Theorem frame_is_sent {T} (env : Env T) (s : Session) (c : Controller)
    (prefix payload : string) :
  videoRef env = true -> canvasRef env = true -> context2d env = true ->
  isClosingRef c = false ->
  is_Some (sessionRef c) ->
  pending c = [] ->
  dataUrl env = (prefix ++ String "," payload)%string ->
  commaFree prefix ->
  commaFree payload ->
  let c1 := frameTick env s c in
  outbox (sendPending c1)
  = outbox c ++ [(s, {| data := Some payload; mimeType := "image/jpeg" |})]
  /\ isAnalyzing c1 = true
  /\ timers c1
     = timers c ++ [{| timerId := S (timersMade c); due := clock c + 200;
                       callback := CbAnalyzingOff; every := None |}].
Proof.
  intros Hv Hcv Hctx Hc Hs Hq Hurl Hp Hpay. unfold frameTick.
  rewrite Hv, Hcv, Hctx, Hc, (bool_decide_eq_true_2 _ Hs), Hurl.
  rewrite split_comma_1_app by exact Hp. rewrite upto_comma_free by exact Hpay.
  destruct c; cbn in *. subst. repeat split.
Qed.

Lemma frame_is_sent_witness :
  let c1 := frameTick (envAt 0) 1%nat liveController in
  outbox (sendPending c1)
  = outbox liveController
    ++ [(1%nat, {| data := Some "AAAA"; mimeType := "image/jpeg" |})]
  /\ isAnalyzing c1 = true
  /\ timers c1
     = timers liveController
       ++ [{| timerId := S (timersMade liveController);
              due := clock liveController + 200;
              callback := CbAnalyzingOff; every := None |}].
Proof.
  refine (frame_is_sent (envAt 0) 1%nat liveController
            "data:image/jpeg;base64" "AAAA" _ _ _ _ _ _ _ _ _);
    try reflexivity.
  - now exists 1%nat.
  - cbn. repeat split; discriminate.
  - cbn. repeat split; discriminate.
Defined.

(** ** The countdown *)

Lemma padStart_two_digits (n : nat) :
  (n < 100)%nat -> padStart 2 "0" (pretty n) = twoDigits n.
Proof.
  intros Hn.
  assert (Hall : forallb (fun n => String.eqb (padStart 2 "0" (pretty n)) (twoDigits n))
                         (seq 0 100) = true) by (vm_compute; reflexivity).
  rewrite forallb_forall in Hall.
  apply String.eqb_eq, Hall, in_seq. lia.
Qed.

Lemma digit_inj (a b : nat) : (a < 10)%nat -> (b < 10)%nat -> digit a = digit b -> a = b.
Proof.
  intros Ha Hb Hd. unfold digit in Hd.
  apply (f_equal nat_of_ascii) in Hd.
  rewrite !nat_ascii_embedding in Hd by lia. lia.
Qed.

Lemma twoDigits_inj (a b : nat) :
  (a < 100)%nat -> (b < 100)%nat -> twoDigits a = twoDigits b -> a = b.
Proof.
  intros Ha Hb Hd. unfold twoDigits in Hd.
  assert (H1 : digit (a / 10) = digit (b / 10)) by congruence.
  assert (H2 : digit (a mod 10) = digit (b mod 10)) by congruence.
  clear Hd.
  apply digit_inj in H1; [|apply Nat.Div0.div_lt_upper_bound; lia..].
  apply digit_inj in H2; [|apply Nat.mod_upper_bound; lia..].
  rewrite (Nat.div_mod_eq a 10), (Nat.div_mod_eq b 10). now rewrite H1, H2.
Qed.

Lemma formatTime_twoDigits (seconds : nat) :
  (seconds < 60 * 100)%nat ->
  formatTime seconds
  = (twoDigits (seconds / 60) ++ ":" ++ twoDigits (seconds mod 60))%string.
Proof.
  intros Hs. unfold formatTime. cbv zeta.
  rewrite !padStart_two_digits; [reflexivity| |].
  - pose proof (Nat.mod_upper_bound seconds 60). lia.
  - apply Nat.Div0.div_lt_upper_bound. lia.
Qed.

(** X24: below a hundred minutes the clock reads MM:SS, two digits of minutes,
    a colon and two digits of seconds, and two different times never read
    the same. *)
Theorem formatTime_reads_mm_ss (a b : nat) :
  (a < 60 * 100)%nat -> (b < 60 * 100)%nat ->
  formatTime a
  = String (digit (a / 60 / 10)) (String (digit (a / 60 mod 10))
      (String ":" (String (digit (a mod 60 / 10))
         (String (digit (a mod 60 mod 10)) EmptyString))))
  /\ (formatTime a = formatTime b -> a = b).
Proof.
  intros Ha Hb. split; [now rewrite formatTime_twoDigits|].
  rewrite !formatTime_twoDigits by assumption.
  assert (Happ : forall n rest,
            (twoDigits n ++ rest)%string
            = String (digit (n / 10)) (String (digit (n mod 10)) rest))
    by reflexivity.
  rewrite !Happ. intros Hd.
  assert (Hm : (a / 60 = b / 60)%nat).
  { apply twoDigits_inj; [apply Nat.Div0.div_lt_upper_bound; lia..|].
    unfold twoDigits. congruence. }
  assert (Hs : (a mod 60 = b mod 60)%nat).
  { apply twoDigits_inj; [|  |].
    3: { assert (Hc : (":" ++ twoDigits (a mod 60))%string
                      = (":" ++ twoDigits (b mod 60))%string) by congruence.
         rewrite !append_cons in Hc. change ("" ++ ?x)%string with x in Hc.
         congruence. }
    - pose proof (Nat.mod_upper_bound a 60). lia.
    - pose proof (Nat.mod_upper_bound b 60). lia. }
  rewrite (Nat.div_mod_eq a 60), (Nat.div_mod_eq b 60). now rewrite Hm, Hs.
Qed.

Lemma formatTime_reads_mm_ss_witness :
  formatTime 754 = "12:34" /\ (formatTime 754 = formatTime 899 -> 754 = 899)%nat.
Proof.
  refine (formatTime_reads_mm_ss 754 899 _ _); lia.
Defined.

Lemma tick_active (timeLeft : nat) : tick true timeLeft = (timeLeft - 1)%nat.
Proof. destruct timeLeft; [reflexivity|]. unfold tick. cbn. reflexivity. Qed.

Lemma ticks_active (k timeLeft : nat) :
  Nat.iter k (tick true) timeLeft = (timeLeft - k)%nat.
Proof.
  induction k as [|k IH]; [cbn; lia|].
  rewrite Nat.iter_succ, IH, tick_active. lia.
Qed.

(** X25: an exam started for [m] minutes counts down from [m] minutes: the
    clock first reads MM:00, it is down by one second at each tick while the
    session is active, and the end of the exam is signalled at the tick that
    brings it to zero, not before; while the session is not active the clock
    stands still and no end is signalled. *)
Theorem countdown_from_duration (selectedDifficulty : DifficultyLevel)
    (m : nat) (selectedClass : ClassLevel) (a : Shell) (k : nat) :
  (m < 100)%nat ->
  let initialTimeSeconds :=
    examDuration (startExam selectedDifficulty m selectedClass a) in
  let timeLeft := Nat.iter k (tick true) initialTimeSeconds in
  formatTime initialTimeSeconds = (twoDigits m ++ ":00")%string
  /\ (initialTimeSeconds / 60)%nat = m
  /\ timeLeft = (60 * m - k)%nat
  /\ (countdownEffect true timeLeft = CallOnEnd <-> (60 * m <= k)%nat)
  /\ tick false timeLeft = timeLeft
  /\ countdownEffect false timeLeft = NoEffect.
Proof.
  intros Hm. cbn [examDuration startExam]. cbv zeta.
  rewrite ticks_active. split; [|split; [|split; [|split; [|split]]]].
  - rewrite formatTime_twoDigits by lia.
    now rewrite Nat.div_mul, Nat.Div0.mod_mul by lia.
  - now rewrite Nat.div_mul by lia.
  - lia.
  - unfold countdownEffect. cbn [andb].
    destruct (Nat.ltb_spec 0 (m * 60 - k)); [split; [discriminate|lia]|].
    destruct (Nat.eqb_spec (m * 60 - k) 0); [|lia].
    split; [lia|reflexivity].
  - unfold tick, countdownEffect. cbn [andb]. now rewrite andb_false_r.
  - unfold countdownEffect. cbn [andb]. now rewrite andb_false_r.
Qed.

Lemma countdown_from_duration_witness :
  let initialTimeSeconds := examDuration (startExam HARD 15 XII
      {| examStatus := IDLE; difficulty := MEDIUM; classLevel := XII;
         examDuration := 900; sessionTranscript := [];
         report := {| isGeneratingReport := false; examStats := None |} |}) in
  let timeLeft := Nat.iter 900 (tick true) initialTimeSeconds in
  formatTime initialTimeSeconds = (twoDigits 15 ++ ":00")%string
  /\ (initialTimeSeconds / 60)%nat = 15%nat
  /\ timeLeft = (60 * 15 - 900)%nat
  /\ (countdownEffect true timeLeft = CallOnEnd <-> (60 * 15 <= 900)%nat)
  /\ tick false timeLeft = timeLeft
  /\ countdownEffect false timeLeft = NoEffect.
Proof.
  refine (countdown_from_duration HARD 15 XII _ 900 _). lia.
Defined.

(** ** The examiner and the report *)

Lemma selectedPersona_voice (selectedPersonaId : string) :
  voiceName (selectedPersona selectedPersonaId)
  = id (selectedPersona selectedPersonaId).
Proof.
  unfold selectedPersona.
  destruct (find _ PERSONAS) as [p|] eqn:Hf; [|reflexivity].
  apply find_some in Hf as [Hin _]. apply list_elem_of_In in Hin.
  unfold PERSONAS in Hin.
  repeat (apply elem_of_cons in Hin as [->|Hin]; [reflexivity|]).
  now apply elem_of_nil in Hin.
Qed.

(** X26: the examiner in use is always one of the table: an identifier of the
    table selects its own entry, any other one selects the first entry, and
    the voice of the selected entry is its identifier. *)
Theorem selectedPersona_lookup (selectedPersonaId : string) :
  selectedPersona selectedPersonaId ∈ PERSONAS
  /\ (forall p, p ∈ PERSONAS -> selectedPersona (id p) = p)
  /\ ((forall p, p ∈ PERSONAS -> id p <> selectedPersonaId) ->
      selectedPersona selectedPersonaId = Charon)
  /\ voiceName (selectedPersona selectedPersonaId)
     = id (selectedPersona selectedPersonaId).
Proof.
  split; [|split; [|split]].
  - unfold selectedPersona.
    destruct (find _ PERSONAS) as [p|] eqn:Hf.
    + apply find_some in Hf as [Hin _]. now apply list_elem_of_In.
    + apply list_elem_of_here.
  - intros p Hp. unfold PERSONAS in Hp.
    repeat (apply elem_of_cons in Hp as [->|Hp]; [reflexivity|]).
    now apply elem_of_nil in Hp.
  - intros Hnone. unfold selectedPersona.
    destruct (find _ PERSONAS) as [p|] eqn:Hf; [|reflexivity].
    apply find_some in Hf as [Hin Heq]. apply String.eqb_eq in Heq.
    now apply list_elem_of_In, Hnone in Hin.
  - apply selectedPersona_voice.
Qed.

Lemma JSON_parse_empty_object : JSON_parse "{}" = Some (JObject []).
Proof. vm_compute. reflexivity. Qed.

Lemma JSON_parse_empty_text : JSON_parse "" = None.
Proof. vm_compute. reflexivity. Qed.

(** X27: the stored report is [null] exactly when the text of the response
    is the JSON value [null]; an absent or empty text, a failed request and a
    text that is not JSON all store an object. *)
Theorem report_null_only_for_null (reply : Reply) (a : App) :
  examStats (generateReport reply a) = None
  <-> exists responseText,
        reply = Response (Some responseText)
        /\ JSON_parse responseText = Some JNull.
Proof.
  unfold generateReport. cbn [examStats]. split.
  - destruct reply as [|[responseText|]]; [discriminate| |].
    + destruct responseText as [|c rest].
      { change (truthy (Some "")) with false. cbv iota.
        rewrite JSON_parse_empty_object. discriminate. }
      change (truthy (Some (String c rest))) with true. cbv iota.
      change (default "" (Some (String c rest))) with (String c rest).
      destruct (JSON_parse (String c rest)) as [[]|] eqn:Hp;
        cbn [setExamStats]; try discriminate.
      intros _. now exists (String c rest).
    + change (truthy None) with false. cbv iota.
      rewrite JSON_parse_empty_object. discriminate.
  - intros (responseText & -> & Hp).
    destruct responseText as [|c rest].
    { rewrite JSON_parse_empty_text in Hp. discriminate. }
    change (truthy (Some (String c rest))) with true. cbv iota.
    change (default "" (Some (String c rest))) with (String c rest).
    now rewrite Hp.
Qed.

Section Reconnect.
Context {T : Type} `{Timeline T}.

Lemma teardown_logs (r : Room T) :
  tracksStopped (controller (teardown r))
  = tracksStopped (controller r) ++ listOf (streamRef (controller r))
  /\ outbox (controller (teardown r)) = outbox (controller r)
  /\ connects (controller (teardown r)) = connects (controller r).
Proof.
  open_room r. destruct p as [spk nxt src crt sta stp].
  unfold teardown, stopActiveSession. destruct ses, frm, str; cbn;
    rewrite ?app_nil_r; repeat split.
Qed.

Lemma mount_idle (env : Env T) (stream : nat) (s : Session) (r : Room T) :
  getUserMedia env = Some stream ->
  connectResult env = Some s ->
  sessionRef (controller r) = None ->
  frameIntervalRef (controller r) = None ->
  streamRef (controller r) = None ->
  let c := controller r in
  let c' := controller (mount env r) in
  sessionRef c' = Some s
  /\ streamRef c' = Some stream
  /\ isClosingRef c' = false
  /\ errorMessage c' = None
  /\ connects c' = connects c ++ [voiceName (persona env)]
  /\ closed c' = closed c
  /\ tracksStopped c' = tracksStopped c
  /\ outbox c' = outbox c.
Proof.
  intros Hm Hc. open_room r. destruct p as [spk nxt src crt sta stp]. cbn.
  intros -> -> ->. unfold mount, startSession, stopActiveSession. cbn.
  rewrite Hm, Hc. cbn. repeat split.
Qed.

(** X28: a change of examiner reconnects with the new voice: the teardown of
    the effect followed by its body, with the devices granted and the
    connection accepted, closes the session held before, stops the tracks of
    the stream held before and asks for a new one, and leaves the component
    open for sending, holding the new session, with no error shown; the
    connection was asked for with the voice of the examiner selected, which
    is the identifier selected when it is one of the table. *)
Theorem persona_change_reconnects (env0 env : Env T) (selectedPersonaId : string)
    (stream : nat) (s : Session) (r : Room T) :
  persona env = selectedPersona selectedPersonaId ->
  getUserMedia env = Some stream ->
  connectResult env = Some s ->
  let c := controller r in
  let c' := controller (run [(env0, Teardown); (env, Mount)] r) in
  sessionRef c' = Some s
  /\ streamRef c' = Some stream
  /\ isClosingRef c' = false
  /\ errorMessage c' = None
  /\ connects c' = connects c ++ [id (selectedPersona selectedPersonaId)]
  /\ closed c' = closed c ++ listOf (sessionRef c)
  /\ tracksStopped c' = tracksStopped c ++ listOf (streamRef c)
  /\ outbox c' = outbox c.
Proof.
  intros Hp Hm Hc. cbv zeta. rewrite <- selectedPersona_voice, <- Hp.
  cbn [run step].
  destruct (teardown_leaves r) as (H1 & H2 & H3 & _).
  destruct (teardown_closes r) as [_ Hcl].
  destruct (teardown_logs r) as (Htr & Hout & Hcon).
  destruct (mount_idle env stream s (teardown r) Hm Hc H1 H2 H3)
    as (-> & -> & -> & -> & -> & -> & -> & ->).
  now rewrite Hcl, Htr, Hout, Hcon.
Qed.
End Reconnect.

Lemma persona_change_reconnects_witness :
  let c := controller live in
  let c' := controller (run [(envAt 0, Teardown); (envAt 0, Mount)] live) in
  sessionRef c' = Some 1%nat
  /\ streamRef c' = Some 1%nat
  /\ isClosingRef c' = false
  /\ errorMessage c' = None
  /\ connects c' = connects c ++ [id (selectedPersona "Charon")]
  /\ closed c' = closed c ++ listOf (sessionRef c)
  /\ tracksStopped c' = tracksStopped c ++ listOf (streamRef c)
  /\ outbox c' = outbox c.
Proof.
  refine (persona_change_reconnects (envAt 0) (envAt 0) "Charon" 1%nat 1%nat live
            _ _ _); reflexivity.
Defined.
